(** * Project deletion in the orchest-api: a two-phase cascade

    Embedding of [services/orchest-api/app/app/apis/namespace_projects.py]:
    the [Project.delete] endpoint and the [DeleteProject] two-phase function.

    A two-phase function has a store-mutation phase ([_transaction]), run at
    once inside the data base session of a [TwoPhaseExecutor], and a collateral
    phase ([_collateral]), queued and run after the session has committed. *)

From stdpp Require Import base list strings.


(** ** Data model *)

(** The rows the endpoint queries.  Every model names its project column
    [project_uuid]; one module per model keeps the source's column names. *)
Module models.

Module InteractivePipelineRun.
Record t := mk {
  run_uuid : string;
  project_uuid : string;
  pipeline_uuid : string;
  status : string
}.
End InteractivePipelineRun.

Module InteractiveSession.
Record t := mk {
  project_uuid : string;
  pipeline_uuid : string
}.
End InteractiveSession.

Module Job.
Record t := mk {
  job_uuid : string;
  project_uuid : string
}.
End Job.

(** Modelled from the spec: the model declarations are not part of the
    source file.  "Job: [...] may itself own pipeline runs." *)
Module NonInteractivePipelineRun.
Record t := mk {
  run_uuid : string;
  job_uuid : string;
  status : string
}.
End NonInteractivePipelineRun.

(** Modelled from the spec: "Environment Image: a built container image
    associated with a project/environment". *)
Module EnvironmentImage.
Record t := mk {
  project_uuid : string;
  environment_uuid : string
}.
End EnvironmentImage.

End models.

Import models.

#[global] Instance interactive_run_eq_dec : EqDecision InteractivePipelineRun.t.
Proof. solve_decision. Defined.
#[global] Instance interactive_session_eq_dec : EqDecision InteractiveSession.t.
Proof. solve_decision. Defined.
#[global] Instance job_eq_dec : EqDecision Job.t.
Proof. solve_decision. Defined.
#[global] Instance job_run_eq_dec : EqDecision NonInteractivePipelineRun.t.
Proof. solve_decision. Defined.
#[global] Instance environment_image_eq_dec : EqDecision EnvironmentImage.t.
Proof. solve_decision. Defined.

(** The metadata store: one list of rows per table.  [projects] holds the
    Project records of the spec's data model, each identified by its uuid;
    the orchest-api itself "has no model related to a project" (module
    docstring) and no statement of the source reads or writes it. *)
Record DB := mkDB {
  interactive_runs : list InteractivePipelineRun.t;
  interactive_sessions : list InteractiveSession.t;
  jobs : list Job.t;
  job_runs : list NonInteractivePipelineRun.t;
  environment_images : list EnvironmentImage.t;
  projects : list string
}.

(** ** Exceptions, events and the effect monad *)

(** What Python raises: an instance of [Exception], or of a
    [BaseException] that is not an [Exception] ([SystemExit],
    [KeyboardInterrupt], [GeneratorExit]); [str] is its message. *)
Inductive exn :=
| Exception (msg : string)
| BaseException (msg : string).

Definition str (e : exn) : string :=
  match e with
  | Exception msg => msg
  | BaseException msg => msg
  end.

(** The classes of two-phase functions: the four the module imports, and
    the one it defines. *)
Inductive Imported :=
| AbortPipelineRun
| StopInteractiveSession
| DeleteJob
| DeleteProjectEnvironmentImages.

Inductive Class :=
| Imp (i : Imported)
| DeleteProject.

Coercion Imp : Imported >-> Class.

(** A two-phase function together with the positional arguments its
    [transaction] was called with: the entries of the collateral queue. *)
Record Call := mkCall { cls : Class; args : list string }.

(** A row handed to [db.session.delete]. *)
Inductive Row :=
| InteractiveRunRow (run_uuid : string)
| ProjectRow (project_uuid : string).

(** What an observer of one request can see happen, in order. *)
Inductive Event :=
| EvTransaction (c : Call)              (* a store-mutation phase is entered *)
| EvDelete (r : Row)                    (* db.session.delete(row) *)
| EvCommit                              (* the session commits *)
| EvRollback                            (* the session rolls back *)
| EvCollateral (c : Call)               (* a collateral phase is run *)
| EvCollateralFailed (c : Call) (e : exn).

#[global] Instance exn_eq_dec : EqDecision exn.
Proof. solve_decision. Defined.
#[global] Instance imported_eq_dec : EqDecision Imported.
Proof. solve_decision. Defined.
#[global] Instance class_eq_dec : EqDecision Class.
Proof. solve_decision. Defined.
#[global] Instance call_eq_dec : EqDecision Call.
Proof. solve_decision. Defined.
#[global] Instance row_eq_dec : EqDecision Row.
Proof. solve_decision. Defined.
#[global] Instance event_eq_dec : EqDecision Event.
Proof. solve_decision. Defined.

(** A computation over a state [S]: it returns a value or raises, leaves a
    state behind either way (Python keeps the mutations made before a
    raise), and emits events. *)
Record Outcome (S A : Type) := mkOutcome {
  result : A + exn;
  state : S;
  events : list Event
}.
Arguments mkOutcome {S A} _ _ _.
Arguments result {S A} _.
Arguments state {S A} _.
Arguments events {S A} _.

Definition M (S A : Type) : Type := S → Outcome S A.

Definition ret {S A} (a : A) : M S A :=
  λ s, mkOutcome (inl a) s [].

Definition bind {S A B} (m : M S A) (k : A → M S B) : M S B :=
  λ s,
    let o := m s in
    match result o with
    | inl a =>
        let o' := k a (state o) in
        mkOutcome (result o') (state o') (events o ++ events o')
    | inr e => mkOutcome (inr e) (state o) (events o)
    end.

Definition raise {S A} (e : exn) : M S A :=
  λ s, mkOutcome (inr e) s [].

(** [try: m  except Exception as e: handler e].  The clause catches the
    instances of [Exception]; any other [BaseException] goes through. *)
Definition try_except {S A} (m : M S A) (handler : exn → M S A) : M S A :=
  λ s,
    let o := m s in
    match result o with
    | inl a => o
    | inr (Exception msg) =>
        let o' := handler (Exception msg) (state o) in
        mkOutcome (result o') (state o') (events o ++ events o')
    | inr (BaseException msg) => o
    end.

(** Modelled from the spec: a failure captured where it occurs, whatever
    it is.  Section 7: "collateral errors are caught per-action, never
    propagated". *)
Definition captured {S A} (m : M S A) (handler : exn → M S A) : M S A :=
  λ s,
    let o := m s in
    match result o with
    | inl a => o
    | inr e =>
        let o' := handler e (state o) in
        mkOutcome (result o') (state o') (events o ++ events o')
    end.

Definition gets {S A} (f : S → A) : M S A :=
  λ s, mkOutcome (inl (f s)) s [].

Definition modify {S} (f : S → S) : M S unit :=
  λ s, mkOutcome (inl tt) (f s) [].

Definition log {S} (e : Event) : M S unit :=
  λ s, mkOutcome (inl tt) s [e].

(** A state transformer that may raise, run silently. *)
Definition call {S} (f : S → (unit + exn) * S) : M S unit :=
  λ s, mkOutcome (f s).1 (f s).2 [].

Declare Scope M_scope.
Delimit Scope M_scope with M.
Notation "x ← y ; z" := (bind y (λ x, z))
  (at level 20, y at level 100, z at level 200, only parsing) : M_scope.
Notation "y ;; z" := (bind y (λ _, z))
  (at level 100, z at level 200, only parsing, right associativity) : M_scope.
Open Scope M_scope.

(** [for x in l: body x] *)
Fixpoint for_ {S A} (l : list A) (body : A → M S unit) : M S unit :=
  match l with
  | [] => ret tt
  | x :: l' => body x ;; for_ l' body
  end.

(** ** The two-phase executor's state *)

(** What a store-mutation phase can reach: the data base session of the open
    transaction ([db.session]) and the executor's collateral queue. *)
Record Scope := mkScope {
  session : DB;
  collateral_queue : list Call
}.

(** The calls of the spec's external interfaces (section 6). *)
Inductive InfraCall :=
| infra_abort (run_id : string)
| infra_stop (project_id pipeline_id : string)
| infra_delete_images (project_id : string)
| infra_cancel (job_id : string).

#[global] Instance infra_call_eq_dec : EqDecision InfraCall.
Proof. solve_decision. Defined.

(** The infrastructure, as an instrumented backend sees it: the calls
    issued so far, oldest first. *)
Definition Backend : Type := list InfraCall.

(** What the caller of the API sees: the committed store and the
    infrastructure. *)
Record World := mkWorld {
  store : DB;
  backend : Backend
}.

(** The imported two-phase functions.  Their code is not in the source file:
    a store-mutation phase is any transformer of the scope that may raise, a
    collateral phase any transformer of the infrastructure that may raise;
    both take the positional arguments of [transaction]. *)
Record Imports := mkImports {
  imported_transaction : Imported → list string → Scope → (unit + exn) * Scope;
  imported_collateral : Imported → list string → Backend → (unit + exn) * Backend
}.

(** The handle bound by [with TwoPhaseExecutor(db.session) as tpe]. *)
Inductive TwoPhaseExecutor := Tpe.

(** [TwoPhaseFunction.__init__(self, tpe)]: an instance of an imported class;
    constructing it stores its argument and does nothing else. *)
Record TwoPhaseFunction (T : Type) := new {
  instance_of : Imported;
  tpe : T
}.
Arguments new {T} _ _.
Arguments instance_of {T} _.
Arguments tpe {T} _.

Definition enqueue (c : Call) : M Scope unit :=
  modify (λ s, mkScope (session s) (collateral_queue s ++ [c])).

(** Modelled from the spec: [TwoPhaseFunction.transaction], which is not in
    the source file.  Section 4.2: "run(scope, ...args): invoked once;
    internally calls the store-mutation phase immediately, then enqueues the
    side-effect phase (bound with whatever arguments it captured) onto
    scope's Collateral Queue." *)
Definition two_phase (c : Call) (store_phase : M Scope unit) : M Scope unit :=
  log (EvTransaction c) ;;
  store_phase ;;
  enqueue c.

(** [X(tpe).transaction(args...)] for an imported class [X]. *)
Definition transaction (U : Imports) (self : TwoPhaseFunction TwoPhaseExecutor)
    (args : list string) : M Scope unit :=
  two_phase (mkCall (instance_of self) args)
            (call (imported_transaction U (instance_of self) args)).

(** [db.session.delete(run)]: the row with the run's key leaves the
    session.  The key of a run is its [run_uuid], the identifier the source
    hands to [AbortPipelineRun]. *)
Definition session_delete (run : InteractivePipelineRun.t) : M Scope unit :=
  log (EvDelete (InteractiveRunRow (InteractivePipelineRun.run_uuid run))) ;;
  modify (λ s,
    mkScope
      (mkDB
         (filter (λ r, InteractivePipelineRun.run_uuid r
                       ≠ InteractivePipelineRun.run_uuid run)
                 (interactive_runs (session s)))
         (interactive_sessions (session s))
         (jobs (session s))
         (job_runs (session s))
         (environment_images (session s))
         (projects (session s)))
      (collateral_queue s)).

(** ** [class DeleteProject(TwoPhaseFunction)] *)

Module DeleteProject.

(** Lines 54-58: the query for the interactive runs of the project that are
    PENDING or STARTED. *)
Definition select_interactive_runs (project_uuid : string) (db : DB)
    : list InteractivePipelineRun.t :=
  filter (λ run, InteractivePipelineRun.status run ∈ ["PENDING"; "STARTED"])
    (filter (λ run, InteractivePipelineRun.project_uuid run = project_uuid)
       (interactive_runs db)).

(** Lines 67-77: the distinct [(project_uuid, pipeline_uuid)] pairs of the
    sessions of the project. *)
Definition select_sessions (project_uuid : string) (db : DB)
    : list (string * string) :=
  remove_dups
    ((λ s, (InteractiveSession.project_uuid s,
            InteractiveSession.pipeline_uuid s))
     <$> filter (λ s, InteractiveSession.project_uuid s = project_uuid)
                (interactive_sessions db)).

(** Lines 86-92: the [job_uuid]s of the jobs of the project. *)
Definition select_jobs (project_uuid : string) (db : DB) : list string :=
  Job.job_uuid
  <$> filter (λ j, Job.project_uuid j = project_uuid) (jobs db).

(** Lines 54-63. *)
Definition abort_interactive_runs (U : Imports) (tpe : TwoPhaseExecutor)
    (project_uuid : string) : M Scope unit :=
  interactive_runs ← gets (λ s, select_interactive_runs project_uuid (session s));
  for_ interactive_runs (λ run,
    transaction U (new AbortPipelineRun tpe)
                [InteractivePipelineRun.run_uuid run] ;;
    session_delete run).

(** Lines 67-82. *)
Definition stop_interactive_sessions (U : Imports) (tpe : TwoPhaseExecutor)
    (project_uuid : string) : M Scope unit :=
  sessions ← gets (λ s, select_sessions project_uuid (session s));
  for_ sessions (λ session,
    transaction U (new StopInteractiveSession tpe) [project_uuid; session.2]).

(** Lines 86-94.  The loop body is [DeleteJob(job.job_uuid)]: it constructs
    a [DeleteJob] whose [tpe] is the job's uuid, and drops it. *)
Definition delete_jobs (U : Imports) (tpe : TwoPhaseExecutor)
    (project_uuid : string) : M Scope unit :=
  jobs ← gets (λ s, select_jobs project_uuid (session s));
  for_ jobs (λ job,
    let _ := new DeleteJob job in
    ret tt).

(** Lines 51-97. *)
Definition _transaction (U : Imports) (tpe : TwoPhaseExecutor)
    (project_uuid : string) : M Scope unit :=
  abort_interactive_runs U tpe project_uuid ;;
  stop_interactive_sessions U tpe project_uuid ;;
  delete_jobs U tpe project_uuid ;;
  transaction U (new DeleteProjectEnvironmentImages tpe) [project_uuid].

(** Lines 99-100: [pass]. *)
Definition _collateral : M Backend unit :=
  ret tt.

(** [DeleteProject(tpe).transaction(project_uuid)]. *)
Definition transaction (U : Imports) (tpe : TwoPhaseExecutor)
    (project_uuid : string) : M Scope unit :=
  two_phase (mkCall DeleteProject [project_uuid])
            (_transaction U tpe project_uuid).

End DeleteProject.

(** ** The executor *)

(** [tpf.collateral()] for an entry of the queue. *)
Definition collateral (U : Imports) (c : Call) : M Backend unit :=
  match cls c with
  | Imp i => call (imported_collateral U i (args c))
  | DeleteProject => DeleteProject._collateral
  end.

(** Modelled from the spec: the collateral queue is drained in order, and
    (section 4.1) "Each failure is captured and reported [...] but does not
    re-open or invalidate the already-committed metadata transaction". *)
Definition run_collateral (U : Imports) (c : Call) : M Backend unit :=
  log (EvCollateral c) ;;
  captured (collateral U c) (λ e, log (EvCollateralFailed c e)).

Definition drain (U : Imports) (queue : list Call) : M Backend unit :=
  for_ queue (run_collateral U).

(** Modelled from the spec: [TwoPhaseExecutor] used as a context manager,
    which is not in the source file.  Section 4.1: "open(): begins a store
    transaction; initializes an empty Collateral Queue"; "close(outcome): on
    success, commits the store transaction, then executes every queued
    collateral action in enqueue order; on failure (any exception/error from
    within the scope), rolls back the store transaction and discards the
    queue without running any collateral action"; "the scope itself does not
    swallow errors". *)
Definition with_TwoPhaseExecutor (U : Imports)
    (body : TwoPhaseExecutor → M Scope unit) : M World unit :=
  λ w,
    let o := body Tpe (mkScope (store w) []) in
    match result o with
    | inl _ =>
        let d := drain U (collateral_queue (state o)) (backend w) in
        mkOutcome (inl tt)
                  (mkWorld (session (state o)) (state d))
                  (events o ++ EvCommit :: events d)
    | inr e =>
        mkOutcome (inr e) w (events o ++ [EvRollback])
    end.

(** ** [class Project(Resource)] *)

Module Project.

(** The [({"message": ...}, status)] pair a handler returns. *)
Record Response := mkResponse {
  message : string;
  status_code : nat
}.

(** Lines 26-39. *)
Definition delete (U : Imports) (project_uuid : string) : M World Response :=
  returned ←
    try_except
      (with_TwoPhaseExecutor U (λ tpe,
         DeleteProject.transaction U tpe project_uuid) ;;
       ret None)
      (λ e, ret (Some (mkResponse (str e) 500)));
  match returned with
  | Some response => ret response
  | None => ret (mkResponse "Project deletion was successful." 200)
  end.

End Project.

#[global] Instance response_eq_dec : EqDecision Project.Response.
Proof. solve_decision. Defined.

(** ** The terminal operation adapters, from the spec *)

Module SpecUnits.

Definition set_interactive_status (status : string)
    (r : InteractivePipelineRun.t) : InteractivePipelineRun.t :=
  InteractivePipelineRun.mk
    (InteractivePipelineRun.run_uuid r)
    (InteractivePipelineRun.project_uuid r)
    (InteractivePipelineRun.pipeline_uuid r)
    status.

Definition set_job_run_status (status : string)
    (r : NonInteractivePipelineRun.t) : NonInteractivePipelineRun.t :=
  NonInteractivePipelineRun.mk
    (NonInteractivePipelineRun.run_uuid r)
    (NonInteractivePipelineRun.job_uuid r)
    status.

(** Modelled from the spec: the store phase of Abort-Run, which is not in
    the source file.  Section 4.4: "Abort-Run: store phase marks the run
    ABORTED". *)
Definition abort_run (run_uuid : string) (db : DB) : DB :=
  mkDB
    ((λ r, if decide (InteractivePipelineRun.run_uuid r = run_uuid)
           then set_interactive_status "ABORTED" r else r)
     <$> interactive_runs db)
    (interactive_sessions db)
    (jobs db)
    ((λ r, if decide (NonInteractivePipelineRun.run_uuid r = run_uuid)
           then set_job_run_status "ABORTED" r else r)
     <$> job_runs db)
    (environment_images db)
    (projects db).

(** Modelled from the spec: the store phase of Stop-Session, which is not
    in the source file.  Section 4.4: "Stop-Session: store phase removes the
    session record". *)
Definition stop_session (project_uuid pipeline_uuid : string) (db : DB) : DB :=
  mkDB
    (interactive_runs db)
    (filter (λ s, ¬ (InteractiveSession.project_uuid s = project_uuid
                     ∧ InteractiveSession.pipeline_uuid s = pipeline_uuid))
            (interactive_sessions db))
    (jobs db)
    (job_runs db)
    (environment_images db)
    (projects db).

(** Modelled from the spec: the store phase of Delete-Environment-Images,
    which is not in the source file.  Section 4.4: "store phase removes
    image metadata rows". *)
Definition delete_images (project_uuid : string) (db : DB) : DB :=
  mkDB
    (interactive_runs db)
    (interactive_sessions db)
    (jobs db)
    (job_runs db)
    (filter (λ i, EnvironmentImage.project_uuid i ≠ project_uuid)
            (environment_images db))
    (projects db).

(** Modelled from the spec: the job's rows leave the store.  Section 4.4:
    "Delete-Job: store phase removes job scheduling metadata and,
    recursively, the job's own runs". *)
Definition remove_job (job_uuid : string) (db : DB) : DB :=
  mkDB
    (interactive_runs db)
    (interactive_sessions db)
    (filter (λ j, Job.job_uuid j ≠ job_uuid) (jobs db))
    (filter (λ r, NonInteractivePipelineRun.job_uuid r ≠ job_uuid)
            (job_runs db))
    (environment_images db)
    (projects db).

Definition on_session (f : DB → DB) : M Scope unit :=
  modify (λ s, mkScope (f (session s)) (collateral_queue s)).

(** Modelled from the spec: the store phase of Delete-Job, which is not in
    the source file: the job's own runs go "(each via Abort-Run)", a nested
    unit on the same scope, then the job's rows are removed. *)
Definition delete_job (job_uuid : string) : M Scope unit :=
  runs ← gets (λ s, filter (λ r, NonInteractivePipelineRun.job_uuid r = job_uuid)
                           (job_runs (session s)));
  for_ runs (λ r,
    two_phase
      (mkCall AbortPipelineRun [NonInteractivePipelineRun.run_uuid r])
      (on_session (abort_run (NonInteractivePipelineRun.run_uuid r)))) ;;
  on_session (remove_job job_uuid).

Definition silently {S} (m : M S unit) (s : S) : (unit + exn) * S :=
  (result (m s), state (m s)).

Definition type_error {S} : M S unit :=
  raise (Exception "TypeError").

Definition _transaction (i : Imported) (args : list string)
    : Scope → (unit + exn) * Scope :=
  silently
    match i, args with
    | AbortPipelineRun, [run_uuid] => on_session (abort_run run_uuid)
    | StopInteractiveSession, [project_uuid; pipeline_uuid] =>
        on_session (stop_session project_uuid pipeline_uuid)
    | DeleteJob, [job_uuid] => delete_job job_uuid
    | DeleteProjectEnvironmentImages, [project_uuid] =>
        on_session (delete_images project_uuid)
    | _, _ => type_error
    end.

(** Modelled from the spec: the collateral phases, which are not in the
    source file.  Section 4.4: Abort-Run "signals the execution backend to
    terminate the run's workload", Stop-Session "tears down the session's
    live compute context", Delete-Job "cancels any outstanding scheduled
    invocations", Delete-Environment-Images "instructs the registry/build
    backend to delete the corresponding image artifacts"; the calls are
    those of section 6. *)
Definition _collateral (i : Imported) (args : list string)
    : Backend → (unit + exn) * Backend :=
  silently
    match i, args with
    | AbortPipelineRun, [run_uuid] =>
        modify (λ b, b ++ [infra_abort run_uuid])
    | StopInteractiveSession, [project_uuid; pipeline_uuid] =>
        modify (λ b, b ++ [infra_stop project_uuid pipeline_uuid])
    | DeleteJob, [job_uuid] =>
        modify (λ b, b ++ [infra_cancel job_uuid])
    | DeleteProjectEnvironmentImages, [project_uuid] =>
        modify (λ b, b ++ [infra_delete_images project_uuid])
    | _, _ => type_error
    end.

Definition units : Imports := mkImports _transaction _collateral.

End SpecUnits.

(** An imported class replaced by a store phase of one's choice. *)
Definition with_transaction (i : Imported)
    (f : list string → Scope → (unit + exn) * Scope) (U : Imports) : Imports :=
  mkImports
    (λ j, if decide (j = i) then f else imported_transaction U j)
    (imported_collateral U).

(** ** Example stores *)

(** Two projects.  P1 is the project of the spec's scenario: two STARTED
    runs, one session, one job with one PENDING run, three images; and a
    finished run beside.  P2 has no job: a finished run, a PENDING run, a
    session and an image. *)
Definition P1_store : DB :=
  mkDB
    [ InteractivePipelineRun.mk "run-1" "P1" "pipe-a" "STARTED";
      InteractivePipelineRun.mk "run-2" "P1" "pipe-b" "STARTED";
      InteractivePipelineRun.mk "run-3" "P1" "pipe-a" "SUCCESS";
      InteractivePipelineRun.mk "run-8" "P2" "pipe-z" "FAILURE";
      InteractivePipelineRun.mk "run-9" "P2" "pipe-z" "PENDING" ]
    [ InteractiveSession.mk "P1" "pipe-a";
      InteractiveSession.mk "P2" "pipe-z" ]
    [ Job.mk "job-1" "P1" ]
    [ NonInteractivePipelineRun.mk "run-4" "job-1" "PENDING" ]
    [ EnvironmentImage.mk "P1" "env-1";
      EnvironmentImage.mk "P1" "env-2";
      EnvironmentImage.mk "P1" "env-3";
      EnvironmentImage.mk "P2" "env-1" ]
    [ "P1"; "P2" ].

Definition P1_world : World := mkWorld P1_store [].

(** What deleting P1 over the spec's adapters emits up to its commit, and
    the collateral queue it then drains, but for its first entry. *)
Definition P1_until_commit : list Event :=
  [ EvTransaction (mkCall DeleteProject ["P1"]);
    EvTransaction (mkCall AbortPipelineRun ["run-1"]);
    EvDelete (InteractiveRunRow "run-1");
    EvTransaction (mkCall AbortPipelineRun ["run-2"]);
    EvDelete (InteractiveRunRow "run-2");
    EvTransaction (mkCall StopInteractiveSession ["P1"; "pipe-a"]);
    EvTransaction (mkCall DeleteProjectEnvironmentImages ["P1"]);
    EvCommit ].

Definition P1_queue_rest : list Call :=
  [ mkCall AbortPipelineRun ["run-2"];
    mkCall StopInteractiveSession ["P1"; "pipe-a"];
    mkCall DeleteProjectEnvironmentImages ["P1"];
    mkCall DeleteProject ["P1"] ].

(** The same store, with an image unit whose store phase hits a constraint
    of the store after the runs and sessions were handled. *)
Definition failing_images : Imports :=
  with_transaction DeleteProjectEnvironmentImages
    (λ _ s, (inr (Exception "IntegrityError"), s))
    SpecUnits.units.

(** The same store, with an image unit whose store phase is interrupted
    from the keyboard. *)
Definition interrupted : Imports :=
  with_transaction DeleteProjectEnvironmentImages
    (λ _ s, (inr (BaseException "KeyboardInterrupt"), s))
    SpecUnits.units.

(** The same store, with an abort unit whose store phase raises on run-2
    and does as the spec's adapter on every other run. *)
Definition failing_abort : Imports :=
  with_transaction AbortPipelineRun
    (λ args s,
       if decide (args = ["run-2"])
       then (inr (Exception "StaleDataError"), s)
       else SpecUnits._transaction AbortPipelineRun args s)
    SpecUnits.units.

(** ** Vocabulary of the properties *)

(** The events of one live interactive run: abort, then delete. *)
Definition abort_then_delete (run : InteractivePipelineRun.t) : list Event :=
  [ EvTransaction (mkCall AbortPipelineRun [InteractivePipelineRun.run_uuid run]);
    EvDelete (InteractiveRunRow (InteractivePipelineRun.run_uuid run)) ].

Definition stop_of (project_uuid : string) (pair : string * string) : Event :=
  EvTransaction (mkCall StopInteractiveSession [project_uuid; pair.2]).

Definition delete_job_of (job_uuid : string) : Event :=
  EvTransaction (mkCall DeleteJob [job_uuid]).

Definition delete_images_of (project_uuid : string) : Event :=
  EvTransaction (mkCall DeleteProjectEnvironmentImages [project_uuid]).

(** Which step of the cascade an event belongs to. *)
Definition run_event (e : Event) : bool :=
  match e with
  | EvTransaction (mkCall (Imp AbortPipelineRun) _) => true
  | EvDelete (InteractiveRunRow _) => true
  | _ => false
  end.

Definition stop_event (e : Event) : bool :=
  match e with
  | EvTransaction (mkCall (Imp StopInteractiveSession) _) => true
  | _ => false
  end.

Definition job_event (e : Event) : bool :=
  match e with
  | EvTransaction (mkCall (Imp DeleteJob) _) => true
  | _ => false
  end.

(** Events of the store-mutation phases, as opposed to those of the
    executor closing the scope. *)
Definition store_event (e : Event) : bool :=
  match e with
  | EvTransaction _ | EvDelete _ => true
  | _ => false
  end.

(** The collateral phases run, in order. *)
Definition collaterals_run (l : list Event) : list Call :=
  omap (λ e, match e with EvCollateral c => Some c | _ => None end) l.

(** The order of section 4.3, in the spec's words: steps 1 to 5 on the
    project's dependents as selected from [db]. *)
Definition spec_cascade (project_uuid : string) (db : DB) : list Event :=
  flat_map abort_then_delete
           (DeleteProject.select_interactive_runs project_uuid db)
  ++ (stop_of project_uuid <$> DeleteProject.select_sessions project_uuid db)
  ++ (delete_job_of <$> DeleteProject.select_jobs project_uuid db)
  ++ [delete_images_of project_uuid]
  ++ [EvDelete (ProjectRow project_uuid)].


(** The store but for its interactive runs and the runs of its jobs. *)
Definition beside_runs (db : DB) :=
  (interactive_sessions db, jobs db, environment_images db, projects db).

(** The store but for its sessions. *)
Definition beside_sessions (db : DB) :=
  (interactive_runs db, jobs db, job_runs db, environment_images db,
   projects db).

(** A run that is live: PENDING or STARTED. *)
Definition live (run : InteractivePipelineRun.t) : Prop :=
  InteractivePipelineRun.status run ∈ ["PENDING"; "STARTED"].

(** The scope a request's executor opens on a world. *)
Definition opened (w : World) : Scope := mkScope (store w) [].

(** The store-mutation phase of a request, run in the scope it opens. *)
Definition store_phase (U : Imports) (project_uuid : string) (w : World)
    : Outcome Scope unit :=
  DeleteProject.transaction U Tpe project_uuid (opened w).

(** What the endpoint makes of an exception raised under its [with]
    block: a 500 response when it is an [Exception], the exception itself
    when it is not. *)
Definition answer_to (e : exn) : Project.Response + exn :=
  match e with
  | Exception _ => inl (Project.mkResponse (str e) 500)
  | BaseException _ => inr e
  end.

(** The success response of the endpoint. *)
Definition deleted : Project.Response :=
  Project.mkResponse "Project deletion was successful." 200.

(** An event of the cascade of a project that stays within the project:
    Abort-Run on, or the delete of, a run the query of lines 54-58 selects
    from [db]; Stop-Session and Delete-Environment-Images on the project's
    own uuid. *)
Definition own_event (project_uuid : string) (db : DB) (e : Event) : Prop :=
  match e with
  | EvTransaction (mkCall (Imp AbortPipelineRun) a) =>
      ∃ run, run ∈ DeleteProject.select_interactive_runs project_uuid db
             ∧ a = [InteractivePipelineRun.run_uuid run]
  | EvDelete (InteractiveRunRow u) =>
      ∃ run, run ∈ DeleteProject.select_interactive_runs project_uuid db
             ∧ u = InteractivePipelineRun.run_uuid run
  | EvTransaction (mkCall (Imp StopInteractiveSession) a) =>
      ∃ pipeline_uuid, a = [project_uuid; pipeline_uuid]
  | EvTransaction (mkCall (Imp DeleteProjectEnvironmentImages) a) =>
      a = [project_uuid]
  | _ => False
  end.

(** The infrastructure calls the collateral phase of a queue entry issues,
    over the spec's adapters. *)
Definition issued (c : Call) : list InfraCall :=
  match cls c, args c with
  | Imp AbortPipelineRun, [run_uuid] => [infra_abort run_uuid]
  | Imp StopInteractiveSession, [project_uuid; pipeline_uuid] =>
      [infra_stop project_uuid pipeline_uuid]
  | Imp DeleteJob, [job_uuid] => [infra_cancel job_uuid]
  | Imp DeleteProjectEnvironmentImages, [project_uuid] =>
      [infra_delete_images project_uuid]
  | _, _ => []
  end.

(** The loop of lines 59-63, over a list of runs. *)
Definition abort_each (U : Imports) (tpe : TwoPhaseExecutor)
    (l : list InteractivePipelineRun.t) : M Scope unit :=
  for_ l (λ run,
    transaction U (new AbortPipelineRun tpe)
                [InteractivePipelineRun.run_uuid run] ;;
    session_delete run).

(** The units entered, in the order they were entered. *)
Definition entered (l : list Event) : list Call :=
  omap (λ e, match e with EvTransaction c => Some c | _ => None end) l.

(** What executing a queue entry does to the infrastructure, in the spec's
    words (section 4.1, "executes every queued collateral action"): the
    collateral phase of an imported unit is applied, with the arguments of
    the entry; that of [DeleteProject] is [pass]. *)
Definition executed (U : Imports) (b : Backend) (c : Call) : Backend :=
  match cls c with
  | Imp i => (imported_collateral U i (args c) b).2
  | DeleteProject => b
  end.

(** Imported units whose store phases act on the session and enqueue
    nothing of their own. *)
Definition session_units
    (f : Imported → list string → DB → (unit + exn) * DB)
    (g : Imported → list string → Backend → (unit + exn) * Backend)
    : Imports :=
  mkImports
    (λ i args s,
       ((f i args (session s)).1,
        mkScope (f i args (session s)).2 (collateral_queue s)))
    g.

(** The spec's adapters, taken on the session alone. *)
Definition spec_session_phase (i : Imported) (args : list string) (db : DB)
    : (unit + exn) * DB :=
  ((SpecUnits._transaction i args (mkScope db [])).1,
   session (SpecUnits._transaction i args (mkScope db [])).2).

Definition spec_session_units : Imports :=
  session_units spec_session_phase SpecUnits._collateral.

(** Every event a computation emits satisfies [P], whatever its outcome. *)
Definition emits {S A} (P : Event → Prop) (m : M S A) : Prop :=
  ∀ s, Forall P (events (m s)).

(** Closed decidable facts are settled by evaluation. *)
Ltac by_computation := apply (bool_decide_unpack _); vm_compute; exact I.

(** ** Lists *)

Lemma filter_all {A} (P : A → Prop) `{!∀ x, Decision (P x)} (l : list A) :
  Forall P l → filter P l = l.
Proof.
  induction 1 as [|x l Hx _ IH]; [done|].
  by rewrite filter_cons_True, IH.
Qed.

Lemma filter_none {A} (P : A → Prop) `{!∀ x, Decision (P x)} (l : list A) :
  Forall (λ x, ¬ P x) l → filter P l = [].
Proof.
  induction 1 as [|x l Hx _ IH]; [done|].
  by rewrite filter_cons_False, IH.
Qed.

Lemma Forall_flat_map {A B} (P : B → Prop) (f : A → list B) (l : list A) :
  (∀ x, Forall P (f x)) → Forall P (flat_map f l).
Proof.
  intros Hf. induction l as [|x l IH]; simpl; [constructor|].
  apply Forall_app. auto.
Qed.

Lemma elem_of_flat_map {A B} (f : A → list B) (l : list A) (y : B) :
  y ∈ flat_map f l → ∃ x, x ∈ l ∧ y ∈ f x.
Proof.
  induction l as [|x l IH]; simpl; [by intros ?%elem_of_nil|].
  intros [H|H]%elem_of_app.
  - exists x. split; [apply elem_of_cons; by left|done].
  - destruct (IH H) as (x' & Hx' & Hy). exists x'.
    split; [apply elem_of_cons; by right|done].
Qed.

(** Rows of a table whose key column has no duplicates are told apart by
    their key. *)
Lemma NoDup_key {A K} (key : A → K) (l : list A) (x y : A) :
  NoDup (key <$> l) → x ∈ l → y ∈ l → key x = key y → x = y.
Proof.
  induction l as [|z l IH]; [by intros _ ?%elem_of_nil|].
  rewrite fmap_cons, NoDup_cons.
  intros [Hz Hl] [->|Hx]%elem_of_cons [->|Hy]%elem_of_cons Hkey; [done| | |by auto].
  - destruct Hz. rewrite Hkey. by apply list_elem_of_fmap_2.
  - destruct Hz. rewrite <-Hkey. by apply list_elem_of_fmap_2.
Qed.

(** ** The effect monad: basic facts *)

Section Monad.
Context {S : Type}.

Lemma bind_success {A B} (m : M S A) (k : A → M S B) s b :
  result (bind m k s) = inl b →
  ∃ a, result (m s) = inl a
       ∧ result (k a (state (m s))) = inl b
       ∧ events (bind m k s) = events (m s) ++ events (k a (state (m s)))
       ∧ state (bind m k s) = state (k a (state (m s))).
Proof.
  unfold bind. destruct (result (m s)) as [a|e] eqn:Hm; simpl; [|done].
  intros Hk. by exists a.
Qed.

Lemma bind_run {A B} (m : M S A) (k : A → M S B) s a :
  result (m s) = inl a →
  bind m k s = mkOutcome (result (k a (state (m s))))
                         (state (k a (state (m s))))
                         (events (m s) ++ events (k a (state (m s)))).
Proof. unfold bind. by intros ->. Qed.

Lemma bind_raise {A B} (m : M S A) (k : A → M S B) s e :
  result (m s) = inr e →
  bind m k s = mkOutcome (inr e) (state (m s)) (events (m s)).
Proof. unfold bind. by intros ->. Qed.

Lemma emits_ret {A} P (a : A) : emits P (ret (S:=S) a).
Proof. intros s. constructor. Qed.

Lemma emits_gets {A} P (f : S → A) : emits P (gets f).
Proof. intros s. constructor. Qed.

Lemma emits_modify P (f : S → S) : emits P (modify f).
Proof. intros s. constructor. Qed.

Lemma emits_call P (f : S → (unit + exn) * S) : emits P (call f).
Proof. intros s. constructor. Qed.

Lemma emits_log (P : Event → Prop) e : P e → emits P (log (S:=S) e).
Proof. intros He s. by repeat constructor. Qed.

Lemma emits_bind {A B} P (m : M S A) (k : A → M S B) :
  emits P m → (∀ a, emits P (k a)) → emits P (bind m k).
Proof.
  intros Hm Hk s. unfold bind.
  destruct (result (m s)); simpl; [|apply Hm].
  apply Forall_app. split; [apply Hm|apply Hk].
Qed.

Lemma emits_for {A} P (l : list A) (body : A → M S unit) :
  (∀ x, emits P (body x)) → emits P (for_ l body).
Proof.
  intros Hbody. induction l as [|x l IH]; simpl.
  - apply emits_ret.
  - apply emits_bind; auto.
Qed.

(** A loop that succeeds emits, in order, what each of its turns emits. *)
Lemma for_events {A} (l : list A) (body : A → M S unit) (g : A → list Event) :
  (∀ x s, result (body x s) = inl tt → events (body x s) = g x) →
  ∀ s, result (for_ l body s) = inl tt →
       events (for_ l body s) = flat_map g l.
Proof.
  intros Hbody. induction l as [|x l IH]; intros s Hs; simpl in *; [done|].
  apply bind_success in Hs as ([] & Hx & Hl & -> & _).
  by rewrite (Hbody _ _ Hx), (IH _ Hl).
Qed.

(** A loop whose turns are total state transformers is one itself. *)
Lemma for_pure {A} (l : list A) (body : A → M S unit)
    (f : A → S → S) (g : A → list Event) :
  (∀ x s, body x s = mkOutcome (inl tt) (f x s) (g x)) →
  ∀ s, for_ l body s
       = mkOutcome (inl tt) (foldl (λ s x, f x s) s l) (flat_map g l).
Proof.
  intros Hbody. induction l as [|x l IH]; intros s; simpl; [done|].
  rewrite (bind_run _ _ _ tt) by (by rewrite Hbody).
  by rewrite Hbody, IH.
Qed.

End Monad.

(** ** The store-mutation phase of [DeleteProject] *)

#[local] Arguments DeleteProject.abort_interactive_runs : simpl never.
#[local] Arguments DeleteProject.stop_interactive_sessions : simpl never.
#[local] Arguments DeleteProject.delete_jobs : simpl never.
#[local] Arguments DeleteProject._transaction : simpl never.
#[local] Arguments DeleteProject.transaction : simpl never.
#[local] Arguments transaction : simpl never.
#[local] Arguments two_phase : simpl never.
#[local] Arguments session_delete : simpl never.

Section StorePhase.
Variable U : Imports.
Variable tpe : TwoPhaseExecutor.

Lemma two_phase_events c (m : M Scope unit) s :
  result (two_phase c m s) = inl tt →
  events (two_phase c m s) = EvTransaction c :: events (m s).
Proof.
  unfold two_phase. intros H.
  apply bind_success in H as ([] & _ & H & -> & _).
  apply bind_success in H as ([] & _ & _ & -> & _).
  simpl. by rewrite app_nil_r.
Qed.

Lemma two_phase_result c (m : M Scope unit) s :
  result (two_phase c m s) = result (m s).
Proof.
  unfold two_phase, bind, log, enqueue, modify. simpl.
  by destruct (result (m s)) as [[]|e].
Qed.

Lemma transaction_events self args s :
  result (transaction U self args s) = inl tt →
  events (transaction U self args s)
  = [EvTransaction (mkCall (instance_of self) args)].
Proof. intros H. unfold transaction. by rewrite two_phase_events. Qed.

Lemma emits_two_phase (P : Event → Prop) c (m : M Scope unit) :
  P (EvTransaction c) → emits P m → emits P (two_phase c m).
Proof.
  intros Hc Hm. unfold two_phase, enqueue.
  repeat (apply emits_bind; [|intros _]);
    auto using emits_log, emits_modify.
Qed.

Lemma emits_transaction (P : Event → Prop) self args :
  P (EvTransaction (mkCall (instance_of self) args)) →
  emits P (transaction U self args).
Proof. intros H. apply emits_two_phase; auto using emits_call. Qed.

Lemma emits_session_delete (P : Event → Prop) run :
  P (EvDelete (InteractiveRunRow (InteractivePipelineRun.run_uuid run))) →
  emits P (session_delete run).
Proof.
  intros H. unfold session_delete.
  apply emits_bind; [|intros _]; auto using emits_log, emits_modify.
Qed.

(** The loop over the jobs does nothing at all. *)
Lemma delete_jobs_noop p s :
  DeleteProject.delete_jobs U tpe p s = mkOutcome (inl tt) s [].
Proof.
  unfold DeleteProject.delete_jobs.
  rewrite (bind_run _ _ _ (DeleteProject.select_jobs p (session s))) by done.
  simpl. induction (DeleteProject.select_jobs p (session s)) as [|job l IH];
    simpl in *; done.
Qed.

Lemma abort_interactive_runs_events p s :
  result (DeleteProject.abort_interactive_runs U tpe p s) = inl tt →
  events (DeleteProject.abort_interactive_runs U tpe p s)
  = flat_map abort_then_delete
             (DeleteProject.select_interactive_runs p (session s)).
Proof.
  unfold DeleteProject.abort_interactive_runs. intros H.
  apply bind_success in H as (runs & [= <-] & H & -> & _). simpl in *.
  apply for_events; [|done].
  intros run s' Hrun.
  apply bind_success in Hrun as ([] & Habort & _ & -> & _).
  by rewrite transaction_events.
Qed.

Lemma stop_interactive_sessions_events p s :
  result (DeleteProject.stop_interactive_sessions U tpe p s) = inl tt →
  events (DeleteProject.stop_interactive_sessions U tpe p s)
  = (stop_of p <$> DeleteProject.select_sessions p (session s)).
Proof.
  unfold DeleteProject.stop_interactive_sessions. intros H.
  apply bind_success in H as (sessions & [= <-] & H & -> & _). simpl in *.
  rewrite (for_events _ _ (λ pair, [stop_of p pair])); [| |done].
  - generalize (DeleteProject.select_sessions p (session s)).
    induction l as [|pair l IH]; [done|]. simpl. by rewrite IH.
  - intros pair s' Hpair. by rewrite transaction_events.
Qed.

(** What a successful store-mutation phase does, in order. *)
Lemma _transaction_events p s :
  result (DeleteProject._transaction U tpe p s) = inl tt →
  result (DeleteProject.abort_interactive_runs U tpe p s) = inl tt
  ∧ events (DeleteProject._transaction U tpe p s)
    = flat_map abort_then_delete
               (DeleteProject.select_interactive_runs p (session s))
      ++ (stop_of p
          <$> DeleteProject.select_sessions p
                (session (state (DeleteProject.abort_interactive_runs U tpe p s))))
      ++ [delete_images_of p].
Proof.
  unfold DeleteProject._transaction. intros H.
  apply bind_success in H as ([] & Hruns & H & -> & _).
  apply bind_success in H as ([] & Hsessions & H & -> & _).
  apply bind_success in H as ([] & _ & H & -> & _).
  rewrite delete_jobs_noop in *. cbn [state events app] in *.
  split; [done|].
  rewrite abort_interactive_runs_events, stop_interactive_sessions_events by done.
  by rewrite transaction_events.
Qed.

Lemma emits_store_phase p :
  emits (λ e, store_event e = true) (DeleteProject.transaction U tpe p).
Proof.
  unfold DeleteProject.transaction, DeleteProject._transaction.
  apply emits_two_phase; [done|].
  apply emits_bind; [|intros ?; apply emits_bind;
                       [|intros ?; apply emits_bind; [|intros ?]]].
  - unfold DeleteProject.abort_interactive_runs.
    apply emits_bind; [apply emits_gets|intros runs].
    apply emits_for. intros run.
    apply emits_bind; [|intros ?];
      auto using emits_transaction, emits_session_delete.
  - unfold DeleteProject.stop_interactive_sessions.
    apply emits_bind; [apply emits_gets|intros sessions].
    apply emits_for. intros pair. by apply emits_transaction.
  - intros s. rewrite delete_jobs_noop. constructor.
  - by apply emits_transaction.
Qed.

End StorePhase.

(** ** The executor and the endpoint *)

Section Executor.
Variable U : Imports.

Lemma collateral_silent c b : events (collateral U c b) = [].
Proof. by destruct c as [[i|] a]. Qed.

Lemma run_collateral_result c b : result (run_collateral U c b) = inl tt.
Proof.
  unfold run_collateral, bind, captured, log. simpl.
  by destruct (result (collateral U c b)) as [[]|e] eqn:Hc.
Qed.

Lemma run_collateral_events c b :
  collaterals_run (events (run_collateral U c b)) = [c].
Proof.
  unfold run_collateral, bind, captured, log. simpl.
  destruct (result (collateral U c b)) as [[]|e] eqn:Hc; simpl;
    by rewrite collateral_silent.
Qed.

Lemma drain_cons c q b :
  drain U (c :: q) b
  = mkOutcome (result (drain U q (state (run_collateral U c b))))
              (state (drain U q (state (run_collateral U c b))))
              (events (run_collateral U c b)
               ++ events (drain U q (state (run_collateral U c b)))).
Proof.
  unfold drain. simpl.
  by rewrite (bind_run _ _ _ tt) by apply run_collateral_result.
Qed.

Lemma collaterals_run_app l1 l2 :
  collaterals_run (l1 ++ l2) = collaterals_run l1 ++ collaterals_run l2.
Proof. apply omap_app. Qed.

(** Draining never raises, and runs the queue front to back. *)
Lemma drain_spec q b :
  result (drain U q b) = inl tt
  ∧ collaterals_run (events (drain U q b)) = q.
Proof.
  revert b. induction q as [|c q IH]; intros b; [done|].
  rewrite drain_cons. cbn [result events].
  destruct (IH (state (run_collateral U c b))) as [-> Hq].
  by rewrite collaterals_run_app, run_collateral_events, Hq.
Qed.

(** A phase that emits store events only ran no collateral and committed
    nothing. *)
Lemma store_events_quiet (l : list Event) :
  Forall (λ e, store_event e = true) l →
  collaterals_run l = [] ∧ (EvCommit ∉ l) ∧ (∀ c, EvCollateral c ∉ l).
Proof.
  induction 1 as [|e l He _ (IH1 & IH2 & IH3)].
  - repeat split; [|intros c]; by apply not_elem_of_nil.
  - repeat split.
    + destruct e; try done. all: exact IH1.
    + intros [<-|?]%elem_of_cons; [done|by apply IH2].
    + intros c [<-|?]%elem_of_cons; [done|by apply (IH3 c)].
Qed.

Lemma with_executor_raise body w e :
  result (body Tpe (opened w)) = inr e →
  with_TwoPhaseExecutor U body w
  = mkOutcome (inr e) w (events (body Tpe (opened w)) ++ [EvRollback]).
Proof. unfold with_TwoPhaseExecutor, opened. by intros ->. Qed.

Lemma with_executor_commit body w :
  result (body Tpe (opened w)) = inl tt →
  with_TwoPhaseExecutor U body w
  = let o := body Tpe (opened w) in
    let d := drain U (collateral_queue (state o)) (backend w) in
    mkOutcome (inl tt) (mkWorld (session (state o)) (state d))
              (events o ++ EvCommit :: events d).
Proof. unfold with_TwoPhaseExecutor, opened. by intros ->. Qed.

Lemma delete_raise p w e :
  result (store_phase U p w) = inr e →
  Project.delete U p w
  = mkOutcome (answer_to e) w (events (store_phase U p w) ++ [EvRollback]).
Proof.
  intros H. unfold Project.delete, bind, try_except.
  rewrite (with_executor_raise _ _ e) by done.
  destruct e; simpl; by rewrite ?app_nil_r.
Qed.

Lemma delete_commit p w :
  result (store_phase U p w) = inl tt →
  Project.delete U p w
  = let o := store_phase U p w in
    let d := drain U (collateral_queue (state o)) (backend w) in
    mkOutcome (inl deleted) (mkWorld (session (state o)) (state d))
              (events o ++ EvCommit :: events d).
Proof.
  intros H. unfold Project.delete, bind, try_except.
  rewrite with_executor_commit by done. simpl.
  by rewrite !app_nil_r.
Qed.

End Executor.

(** ** The cascade over the spec's adapters *)

Section Adapters.
Variable tpe : TwoPhaseExecutor.


(** Marking the run [u] and then dropping it is dropping it. *)
Lemma filter_abort_run u (db : DB) :
  filter (λ r, InteractivePipelineRun.run_uuid r ≠ u)
         (interactive_runs (SpecUnits.abort_run u db))
  = filter (λ r, InteractivePipelineRun.run_uuid r ≠ u) (interactive_runs db).
Proof.
  simpl. induction (interactive_runs db) as [|r l IH]; [done|].
  rewrite fmap_cons. destruct (decide (InteractivePipelineRun.run_uuid r = u)) as [Hr|Hr].
  - rewrite !filter_cons_False; [done|by intros []|by intros []].
  - rewrite !filter_cons_True by done. by rewrite IH.
Qed.

Lemma session_delete_runs run s :
  interactive_runs (session (state (session_delete run s)))
  = filter (λ r, InteractivePipelineRun.run_uuid r
                 ≠ InteractivePipelineRun.run_uuid run)
           (interactive_runs (session s)).
Proof. reflexivity. Qed.

Lemma abort_turn run s :
  bind (transaction SpecUnits.units (new AbortPipelineRun tpe)
                    [InteractivePipelineRun.run_uuid run])
       (λ _, session_delete run) s
  = mkOutcome (inl tt)
      (state (session_delete run
         (mkScope
            (SpecUnits.abort_run (InteractivePipelineRun.run_uuid run) (session s))
            (collateral_queue s
             ++ [mkCall AbortPipelineRun [InteractivePipelineRun.run_uuid run]]))))
      (abort_then_delete run).
Proof. reflexivity. Qed.

Lemma abort_loop (l : list InteractivePipelineRun.t) s :
  let o := for_ l (λ run,
             bind (transaction SpecUnits.units (new AbortPipelineRun tpe)
                               [InteractivePipelineRun.run_uuid run])
                  (λ _, session_delete run)) s in
  result o = inl tt
  ∧ interactive_runs (session (state o))
    = filter (λ r, InteractivePipelineRun.run_uuid r
                   ∉ (InteractivePipelineRun.run_uuid <$> l))
             (interactive_runs (session s))
  ∧ beside_runs (session (state o)) = beside_runs (session s).
Proof.
  revert s. induction l as [|run l IH]; intros s; cbn zeta.
  - repeat split. simpl. rewrite filter_all; [done|].
    apply Forall_forall. intros r _. apply not_elem_of_nil.
  - cbn [for_]. rewrite (bind_run _ _ _ tt) by (by rewrite abort_turn).
    rewrite abort_turn. cbn [result state events].
    match goal with |- context [for_ l ?b ?s'] =>
      destruct (IH s') as (Hres & Hruns & Hrest) end.
    split; [done|]. split; [|by rewrite Hrest].
    rewrite Hruns, session_delete_runs. cbn [session].
    rewrite filter_abort_run, list_filter_filter.
    apply list_filter_iff. intros r. rewrite fmap_cons, not_elem_of_cons.
    tauto.
Qed.

Lemma stop_turn p (pair : string * string) s :
  transaction SpecUnits.units (new StopInteractiveSession tpe) [p; pair.2] s
  = mkOutcome (inl tt)
      (mkScope (SpecUnits.stop_session p pair.2 (session s))
               (collateral_queue s
                ++ [mkCall StopInteractiveSession [p; pair.2]]))
      [stop_of p pair].
Proof. reflexivity. Qed.

Lemma stop_loop p (l : list (string * string)) s :
  let o := for_ l (λ pair,
             transaction SpecUnits.units (new StopInteractiveSession tpe)
                         [p; pair.2]) s in
  result o = inl tt
  ∧ interactive_sessions (session (state o))
    = filter (λ x, ¬ (InteractiveSession.project_uuid x = p
                      ∧ InteractiveSession.pipeline_uuid x ∈ (snd <$> l)))
             (interactive_sessions (session s))
  ∧ beside_sessions (session (state o)) = beside_sessions (session s).
Proof.
  revert s. induction l as [|pair l IH]; intros s; cbn zeta.
  - repeat split. simpl. rewrite filter_all; [done|].
    apply Forall_forall. intros x _ [_ H]. by apply not_elem_of_nil in H.
  - cbn [for_]. rewrite (bind_run _ _ _ tt) by (by rewrite stop_turn).
    rewrite stop_turn. cbn [result state events].
    match goal with |- context [for_ l ?b ?s'] =>
      destruct (IH s') as (Hres & Hsessions & Hrest) end.
    split; [done|]. split; [|by rewrite Hrest].
    rewrite Hsessions. cbn [session SpecUnits.stop_session interactive_sessions].
    rewrite list_filter_filter.
    apply list_filter_iff. intros x. rewrite fmap_cons, elem_of_cons.
    tauto.
Qed.

Lemma two_phase_run c (m : M Scope unit) s :
  result (m s) = inl tt →
  two_phase c m s
  = mkOutcome (inl tt)
      (mkScope (session (state (m s))) (collateral_queue (state (m s)) ++ [c]))
      (EvTransaction c :: events (m s)).
Proof.
  intros Hm. unfold two_phase.
  rewrite (bind_run _ _ _ tt) by done. cbn [log state events result].
  rewrite (bind_run _ _ _ tt) by done. cbn [enqueue modify state events result].
  by rewrite app_nil_r.
Qed.

Lemma images_turn p s :
  transaction SpecUnits.units (new DeleteProjectEnvironmentImages tpe) [p] s
  = mkOutcome (inl tt)
      (mkScope (SpecUnits.delete_images p (session s))
               (collateral_queue s
                ++ [mkCall DeleteProjectEnvironmentImages [p]]))
      [delete_images_of p].
Proof. reflexivity. Qed.

Lemma abort_block p s :
  let o := DeleteProject.abort_interactive_runs SpecUnits.units tpe p s in
  result o = inl tt
  ∧ interactive_runs (session (state o))
    = filter (λ r, InteractivePipelineRun.run_uuid r
                   ∉ (InteractivePipelineRun.run_uuid
                      <$> DeleteProject.select_interactive_runs p (session s)))
             (interactive_runs (session s))
  ∧ beside_runs (session (state o)) = beside_runs (session s).
Proof.
  unfold DeleteProject.abort_interactive_runs.
  rewrite (bind_run _ _ _ (DeleteProject.select_interactive_runs p (session s)))
    by done.
  cbn [gets result state events]. apply abort_loop.
Qed.

Lemma stop_block p s :
  let o := DeleteProject.stop_interactive_sessions SpecUnits.units tpe p s in
  result o = inl tt
  ∧ interactive_sessions (session (state o))
    = filter (λ x, ¬ (InteractiveSession.project_uuid x = p
                      ∧ InteractiveSession.pipeline_uuid x
                        ∈ (snd <$> DeleteProject.select_sessions p (session s))))
             (interactive_sessions (session s))
  ∧ beside_sessions (session (state o)) = beside_sessions (session s).
Proof.
  unfold DeleteProject.stop_interactive_sessions.
  rewrite (bind_run _ _ _ (DeleteProject.select_sessions p (session s)))
    by done.
  cbn [gets result state events]. apply stop_loop.
Qed.

(** The store-mutation phase over the spec's adapters: it succeeds, and
    this is the session it leaves. *)
Lemma spec_transaction p s :
  let o := DeleteProject._transaction SpecUnits.units tpe p s in
  result o = inl tt
  ∧ interactive_runs (session (state o))
    = filter (λ r, InteractivePipelineRun.run_uuid r
                   ∉ (InteractivePipelineRun.run_uuid
                      <$> DeleteProject.select_interactive_runs p (session s)))
             (interactive_runs (session s))
  ∧ interactive_sessions (session (state o))
    = filter (λ x, ¬ (InteractiveSession.project_uuid x = p
                      ∧ InteractiveSession.pipeline_uuid x
                        ∈ (snd <$> DeleteProject.select_sessions p (session s))))
             (interactive_sessions (session s))
  ∧ jobs (session (state o)) = jobs (session s)
  ∧ environment_images (session (state o))
    = filter (λ i, EnvironmentImage.project_uuid i ≠ p)
             (environment_images (session s))
  ∧ projects (session (state o)) = projects (session s).
Proof.
  destruct (abort_block p s) as (R1 & Hruns & H1).
  set (s1 := state (DeleteProject.abort_interactive_runs SpecUnits.units tpe p s))
    in *.
  destruct (stop_block p s1) as (R2 & Hsessions & H2).
  set (s2 := state (DeleteProject.stop_interactive_sessions SpecUnits.units tpe p s1))
    in *.
  unfold DeleteProject._transaction.
  rewrite (bind_run _ _ _ tt) by done. fold s1.
  rewrite (bind_run _ _ _ tt) by done. fold s2.
  rewrite (bind_run _ _ _ tt) by (by rewrite delete_jobs_noop).
  rewrite delete_jobs_noop, images_turn. cbn [result state events session].
  unfold beside_runs, beside_sessions in *.
  injection H1 as E1 E2 E3 E4. injection H2 as F1 F2 F3 F4 F5.
  cbn [SpecUnits.delete_images interactive_runs interactive_sessions jobs
       environment_images projects].
  unfold DeleteProject.select_sessions in *. clearbody s1 s2.
  rewrite Hsessions, F1, Hruns, F2, F4, F5, E1, E2, E3, E4.
  by repeat split.
Qed.

End Adapters.

(** Over the spec's adapters the endpoint always answers 200, and commits
    the session of the store-mutation phase. *)
Lemma spec_delete p w :
  result (Project.delete SpecUnits.units p w) = inl deleted
  ∧ store (state (Project.delete SpecUnits.units p w))
    = session (state (DeleteProject._transaction SpecUnits.units Tpe p (opened w))).
Proof.
  destruct (spec_transaction Tpe p (opened w)) as (R & _).
  assert (result (store_phase SpecUnits.units p w) = inl tt) as Hphase.
  { unfold store_phase, DeleteProject.transaction. by rewrite two_phase_run. }
  rewrite delete_commit by done. cbn [result state store].
  unfold store_phase, DeleteProject.transaction. by rewrite two_phase_run.
Qed.

(** ** The endpoint: responses, rollback, ordering *)

(** C8, as the spec has it, fails: when a unit raises a [BaseException]
    that is not an [Exception], here a keyboard interrupt in the image unit,
    the [with] block raises it and so does [Project.delete]. *)
Lemma delete_propagates_base_exception :
  result (with_TwoPhaseExecutor interrupted
            (λ tpe, DeleteProject.transaction interrupted tpe "P1") P1_world)
  = inr (BaseException "KeyboardInterrupt")
  ∧ result (Project.delete interrupted "P1" P1_world)
    = inr (BaseException "KeyboardInterrupt").
Proof. split; reflexivity. Qed.

(** C8, as the code has it.  [Project.delete] lets no [Exception] through:
    whatever the imported units do, when the [with TwoPhaseExecutor] block
    raises an instance of [Exception] it returns 500 with the exception's
    message, and when the block raises nothing it returns 200 with "Project
    deletion was successful."; a [BaseException] that is not an [Exception]
    is not caught by line 36 and is raised to the caller. *)
Theorem delete_catches_every_Exception (U : Imports) (project_uuid : string)
    (w : World) :
  result (Project.delete U project_uuid w)
  = match result (with_TwoPhaseExecutor U
                    (λ tpe, DeleteProject.transaction U tpe project_uuid) w)
    with
    | inl _ => inl (Project.mkResponse "Project deletion was successful." 200)
    | inr (Exception msg) => inl (Project.mkResponse msg 500)
    | inr (BaseException msg) => inr (BaseException msg)
    end.
Proof.
  destruct (result (store_phase U project_uuid w)) as [[]|e] eqn:Hphase.
  - rewrite delete_commit, with_executor_commit by done. done.
  - rewrite (delete_raise _ _ _ e), (with_executor_raise _ _ _ e) by done.
    by destruct e.
Qed.

(** C3.  When a store-mutation phase of the cascade raises, the request
    leaves the world as it found it: the committed store (runs, sessions,
    jobs, images, projects) and the infrastructure are unchanged, no
    collateral phase was run, nothing was committed, the session was rolled
    back, and the caller gets the error: as a 500 response when it is an
    [Exception], raised when it is not. *)
Theorem failed_deletion_rolls_back (U : Imports) (project_uuid : string)
    (w : World) (e : exn) :
  result (store_phase U project_uuid w) = inr e →
  let o := Project.delete U project_uuid w in
  state o = w
  ∧ result o = match e with
               | Exception _ => inl (Project.mkResponse (str e) 500)
               | BaseException _ => inr e
               end
  ∧ collaterals_run (events o) = []
  ∧ (∀ c, EvCollateral c ∉ events o)
  ∧ (EvCommit ∉ events o)
  ∧ (EvRollback ∈ events o).
Proof.
  intros Hphase. cbn zeta. rewrite (delete_raise _ _ _ e) by done.
  cbn [state result events].
  destruct (store_events_quiet (events (store_phase U project_uuid w)))
    as (Hnone & Hcommit & Hcollateral); [apply emits_store_phase|].
  repeat split.
  - by rewrite collaterals_run_app, Hnone.
  - intros c [H|H]%elem_of_app; [by apply (Hcollateral c)|].
    by apply list_elem_of_singleton in H.
  - intros [H|H]%elem_of_app; [done|].
    by apply list_elem_of_singleton in H.
  - apply elem_of_app. right. by apply list_elem_of_singleton.
Qed.

Lemma failed_deletion_rolls_back_witness :
  result (store_phase failing_images "P1" P1_world)
  = inr (Exception "IntegrityError")
  ∧ state (Project.delete failing_images "P1" P1_world) = P1_world
  ∧ result (Project.delete failing_images "P1" P1_world)
    = inl (Project.mkResponse "IntegrityError" 500).
Proof.
  split; [reflexivity|].
  destruct (failed_deletion_rolls_back failing_images "P1" P1_world
              (Exception "IntegrityError") eq_refl) as (Hstate & Hresult & _).
  split; [exact Hstate|exact Hresult].
Defined.

(** Events up to and including a commit, with no collateral before it. *)
Lemma collateral_after_commit (l d pre post : list Event) c :
  Forall (λ e, store_event e = true) l →
  l ++ EvCommit :: d = pre ++ EvCollateral c :: post →
  EvCommit ∈ pre.
Proof.
  intros Hl. revert pre. induction Hl as [|e l He _ IH]; intros pre Heq.
  - destruct pre as [|e' pre]; simplify_eq/=. apply elem_of_cons. by left.
  - destruct pre as [|e' pre]; simplify_eq/=.
    apply elem_of_cons. right. by apply IH.
Qed.

(** Draining a queue executes its entries front to back. *)
Lemma run_collateral_executed U c b :
  state (run_collateral U c b) = executed U b c.
Proof.
  unfold run_collateral, bind, captured, log. simpl.
  destruct (result (collateral U c b)) as [[]|e] eqn:Hc; simpl;
    by destruct c as [[i|] a].
Qed.

Lemma drain_executed U q b :
  state (drain U q b) = foldl (executed U) b q.
Proof.
  revert b. induction q as [|c q IH]; intros b; [done|].
  rewrite drain_cons. cbn [state foldl].
  by rewrite IH, run_collateral_executed.
Qed.

(** A store phase keeps track of the queue when, on success, the queue it
    leaves is the queue it found followed by the units it entered, in the
    order it entered them. *)
Lemma tracks_bind {A B} (m : M Scope A) (k : A → M Scope B) :
  (∀ s a, result (m s) = inl a →
          collateral_queue (state (m s))
          = collateral_queue s ++ entered (events (m s))) →
  (∀ a s b, result (k a s) = inl b →
            collateral_queue (state (k a s))
            = collateral_queue s ++ entered (events (k a s))) →
  ∀ s b, result (bind m k s) = inl b →
         collateral_queue (state (bind m k s))
         = collateral_queue s ++ entered (events (bind m k s)).
Proof.
  intros Hm Hk s b H.
  apply bind_success in H as (a & Ha & Hb & -> & ->).
  unfold entered. rewrite omap_app, (Hk _ _ _ Hb), (Hm _ _ Ha).
  by rewrite <-app_assoc.
Qed.

Lemma tracks_for {A} (l : list A) (body : A → M Scope unit) :
  (∀ x s u, result (body x s) = inl u →
            collateral_queue (state (body x s))
            = collateral_queue s ++ entered (events (body x s))) →
  ∀ s u, result (for_ l body s) = inl u →
         collateral_queue (state (for_ l body s))
         = collateral_queue s ++ entered (events (for_ l body s)).
Proof.
  intros Hbody. induction l as [|x l IH]; intros s u H.
  - simpl. by rewrite app_nil_r.
  - cbn [for_] in *. revert H. apply tracks_bind; [apply Hbody|].
    intros _. apply IH.
Qed.

Lemma tracks_transaction f g self args s u :
  result (transaction (session_units f g) self args s) = inl u →
  collateral_queue (state (transaction (session_units f g) self args s))
  = collateral_queue s
    ++ entered (events (transaction (session_units f g) self args s)).
Proof.
  intros H. destruct u. rewrite transaction_events by done.
  unfold transaction in *. rewrite two_phase_result in H.
  by rewrite two_phase_run.
Qed.

Lemma tracks_transaction_phase f g tpe p s u :
  result (DeleteProject._transaction (session_units f g) tpe p s) = inl u →
  collateral_queue (state (DeleteProject._transaction (session_units f g) tpe p s))
  = collateral_queue s
    ++ entered (events (DeleteProject._transaction (session_units f g) tpe p s)).
Proof.
  unfold DeleteProject._transaction.
  apply tracks_bind; [|intros ?; apply tracks_bind;
                        [|intros ?; apply tracks_bind]].
  - intros s1 u1. unfold DeleteProject.abort_interactive_runs.
    apply tracks_bind; [intros ? ? _; simpl; by rewrite app_nil_r|].
    intros runs. apply tracks_for. intros run s2 u2.
    apply tracks_bind; [intros ? ?; apply tracks_transaction|].
    intros ? s3 ? _. simpl. by rewrite app_nil_r.
  - intros s1 u1. unfold DeleteProject.stop_interactive_sessions.
    apply tracks_bind; [intros ? ? _; simpl; by rewrite app_nil_r|].
    intros sessions. apply tracks_for. intros pair s2 u2.
    apply tracks_transaction.
  - intros s1 u1 _. rewrite delete_jobs_noop. simpl. by rewrite app_nil_r.
  - intros ? s1 u1. apply tracks_transaction.
Qed.

(** C4.  In every request, a collateral phase is run only after the commit
    of the session.  When the store-mutation phase succeeds, the collateral
    phases run are the entries of the collateral queue, front to back, and
    the infrastructure is what executing them in that order makes of it.
    The queue is in the order of enqueueing: a unit's entry goes behind all
    that the queue holds when its store phase returns, the entry of
    [DeleteProject] last; so that, over units that enqueue nothing of their
    own, the collateral phases run are those of the units the cascade
    entered, in the order it entered them, then [DeleteProject]'s. *)
Theorem collaterals_follow_commit (U : Imports) (project_uuid : string)
    (w : World) :
  let o := Project.delete U project_uuid w in
  let phase := store_phase U project_uuid w in
  let cascade := DeleteProject._transaction U Tpe project_uuid (opened w) in
  (∀ pre c post, events o = pre ++ EvCollateral c :: post → EvCommit ∈ pre)
  ∧ (result phase = inl tt →
     collaterals_run (events o) = collateral_queue (state phase)
     ∧ backend (state o)
       = foldl (executed U) (backend w) (collateral_queue (state phase))
     ∧ collateral_queue (state phase)
       = collateral_queue (state cascade)
         ++ [mkCall DeleteProject [project_uuid]])
  ∧ (∀ self args s,
       result (transaction U self args s) = inl tt →
       collateral_queue (state (transaction U self args s))
       = collateral_queue
           (imported_transaction U (instance_of self) args s).2
         ++ [mkCall (instance_of self) args])
  ∧ (∀ f g,
       U = session_units f g →
       result phase = inl tt →
       collaterals_run (events o)
       = entered (events cascade) ++ [mkCall DeleteProject [project_uuid]]).
Proof.
  cbn zeta.
  pose proof (emits_store_phase U Tpe project_uuid (opened w)) as Hstore.
  fold (store_phase U project_uuid w) in Hstore.
  destruct (store_events_quiet _ Hstore) as (Hnone & Hcommit & Hcollateral).
  assert (result (store_phase U project_uuid w) = inl tt →
          collaterals_run (events (Project.delete U project_uuid w))
          = collateral_queue (state (store_phase U project_uuid w))
          ∧ backend (state (Project.delete U project_uuid w))
            = foldl (executed U) (backend w)
                    (collateral_queue (state (store_phase U project_uuid w)))
          ∧ collateral_queue (state (store_phase U project_uuid w))
            = collateral_queue
                (state (DeleteProject._transaction U Tpe project_uuid (opened w)))
              ++ [mkCall DeleteProject [project_uuid]]) as Hsuccess.
  { intros Hphase. rewrite delete_commit by done. cbn [events state backend].
    split; [|split].
    - rewrite collaterals_run_app, Hnone. simpl. apply drain_spec.
    - apply drain_executed.
    - unfold store_phase, DeleteProject.transaction in *.
      rewrite two_phase_result in Hphase. by rewrite two_phase_run. }
  split; [|split; [done|split]].
  - destruct (result (store_phase U project_uuid w)) as [[]|e] eqn:Hphase.
    + rewrite delete_commit by done. cbn [events].
      intros pre c post Heq. by eapply collateral_after_commit.
    + rewrite (delete_raise _ _ _ e) by done. cbn [events].
      intros pre c post Heq.
      assert (EvCollateral c
              ∈ events (store_phase U project_uuid w) ++ [EvRollback])
        as [H|H]%elem_of_app.
      { rewrite Heq. apply elem_of_app. right. apply elem_of_cons. by left. }
      * by apply Hcollateral in H.
      * by apply list_elem_of_singleton in H.
  - intros self args s H. unfold transaction in *.
    rewrite two_phase_result in H. by rewrite two_phase_run.
  - intros f g -> Hphase. destruct (Hsuccess Hphase) as (-> & _ & ->).
    f_equal.
    unfold store_phase, DeleteProject.transaction in Hphase.
    rewrite two_phase_result in Hphase.
    by rewrite (tracks_transaction_phase _ _ _ _ _ _ Hphase).
Qed.

Lemma collaterals_follow_commit_witness :
  events (Project.delete spec_session_units "P1" P1_world)
  = P1_until_commit ++ EvCollateral (mkCall AbortPipelineRun ["run-1"])
                       :: (EvCollateral <$> P1_queue_rest)
  ∧ result (store_phase spec_session_units "P1" P1_world) = inl tt
  ∧ EvCommit ∈ P1_until_commit
  ∧ collaterals_run (events (Project.delete spec_session_units "P1" P1_world))
    = mkCall AbortPipelineRun ["run-1"] :: P1_queue_rest
  ∧ backend (state (Project.delete spec_session_units "P1" P1_world))
    = [ infra_abort "run-1"; infra_abort "run-2"; infra_stop "P1" "pipe-a";
        infra_delete_images "P1" ]
  ∧ entered (events (DeleteProject._transaction spec_session_units Tpe "P1"
                       (opened P1_world)))
    ++ [mkCall DeleteProject ["P1"]]
    = mkCall AbortPipelineRun ["run-1"] :: P1_queue_rest.
Proof.
  destruct (collaterals_follow_commit spec_session_units "P1" P1_world)
    as (Hbefore & Hqueue & _ & Horder).
  split; [reflexivity|]. split; [reflexivity|]. split; [|split; [|split]].
  - apply (Hbefore P1_until_commit (mkCall AbortPipelineRun ["run-1"])
                   (EvCollateral <$> P1_queue_rest)).
    reflexivity.
  - rewrite (proj1 (Hqueue eq_refl)). reflexivity.
  - rewrite (proj1 (proj2 (Hqueue eq_refl))). reflexivity.
  - rewrite <-(Horder spec_session_phase SpecUnits._collateral eq_refl eq_refl).
    reflexivity.
Defined.

(** The collateral phase of [DeleteProject] leaves the infrastructure as
    it is, so an entry of that class can be struck from the queue. *)
Lemma drain_skips_delete_project (U : Imports) (queue : list Call) (b : Backend) :
  state (drain U queue b)
  = state (drain U (filter (λ c, cls c ≠ DeleteProject) queue) b).
Proof.
  revert b. induction queue as [|c queue IH]; intros b; [done|].
  rewrite drain_cons. cbn [state].
  destruct (decide (cls c = DeleteProject)) as [Hc|Hc].
  - rewrite filter_cons_False by (by intros []).
    rewrite IH. f_equal. f_equal.
    destruct c as [k a]. simpl in Hc. by subst k.
  - rewrite filter_cons_True by done.
    rewrite drain_cons. cbn [state]. apply IH.
Qed.

(** C10.  [DeleteProject._collateral] does nothing: it returns, leaves the
    infrastructure as it is and issues no call; so what a request does to
    the infrastructure after its commit is what the queued child units do:
    draining the queue and draining it without its [DeleteProject] entries
    leave the same infrastructure. *)
Theorem delete_project_collateral_noop :
  (∀ b : Backend, DeleteProject._collateral b = mkOutcome (inl tt) b [])
  ∧ (∀ (U : Imports) (queue : list Call) (b : Backend),
       state (drain U queue b)
       = state (drain U (filter (λ c, cls c ≠ DeleteProject) queue) b)).
Proof. split; [done|]. apply drain_skips_delete_project. Qed.

(** ** The cascade: selection and order *)

Section Cascade.
Variable U : Imports.
Variable tpe : TwoPhaseExecutor.

Lemma run_events_of_runs (l : list InteractivePipelineRun.t) :
  Forall (λ e, run_event e = true ∧ stop_event e = false ∧ job_event e = false)
         (flat_map abort_then_delete l).
Proof. apply Forall_flat_map. intros run. by repeat constructor. Qed.

Lemma stop_events_of_pairs p (l : list (string * string)) :
  Forall (λ e, run_event e = false ∧ stop_event e = true ∧ job_event e = false)
         (stop_of p <$> l).
Proof. apply Forall_fmap, Forall_forall. by intros pair _. Qed.

Lemma select_interactive_runs_spec p db run :
  run ∈ DeleteProject.select_interactive_runs p db
  ↔ run ∈ interactive_runs db
    ∧ InteractivePipelineRun.project_uuid run = p
    ∧ (InteractivePipelineRun.status run = "PENDING"
       ∨ InteractivePipelineRun.status run = "STARTED").
Proof.
  unfold DeleteProject.select_interactive_runs.
  rewrite !list_elem_of_filter, !elem_of_cons, elem_of_nil. tauto.
Qed.

Lemma select_sessions_spec p db (pair : string * string) :
  pair ∈ DeleteProject.select_sessions p db
  ↔ ∃ x, x ∈ interactive_sessions db
         ∧ InteractiveSession.project_uuid x = p
         ∧ pair = (InteractiveSession.project_uuid x,
                   InteractiveSession.pipeline_uuid x).
Proof.
  unfold DeleteProject.select_sessions.
  rewrite elem_of_remove_dups, list_elem_of_fmap.
  split.
  - intros (x & -> & [Hp Hx]%list_elem_of_filter). by exists x.
  - intros (x & Hx & Hp & ->). exists x. split; [done|].
    by apply list_elem_of_filter.
Qed.

(** What a successful store-mutation phase did to runs. *)
Lemma _transaction_run_events p s :
  result (DeleteProject._transaction U tpe p s) = inl tt →
  filter (λ e, run_event e = true) (events (DeleteProject._transaction U tpe p s))
  = flat_map abort_then_delete
             (DeleteProject.select_interactive_runs p (session s)).
Proof.
  intros H. apply _transaction_events in H as [_ ->].
  rewrite !filter_app, filter_all, !filter_none.
  - by rewrite !app_nil_r.
  - by repeat constructor.
  - eapply Forall_impl; [apply stop_events_of_pairs|]. by intros e (-> & _).
  - eapply Forall_impl; [apply run_events_of_runs|]. by intros e (-> & _).
Qed.

(** C5.  The store-mutation phase selects exactly the interactive runs of
    the project whose status is PENDING or STARTED; and when it succeeds,
    what it did to runs is, for each selected run in turn, the Abort-Run
    unit on the run's uuid followed by [db.session.delete] of the run, and
    nothing else; and [db.session.delete] of a run leaves no row of that
    run in the session. *)
Theorem live_runs_aborted_then_deleted (project_uuid : string) (s : Scope) :
  result (DeleteProject._transaction U tpe project_uuid s) = inl tt →
  (∀ run,
     run ∈ DeleteProject.select_interactive_runs project_uuid (session s)
     ↔ run ∈ interactive_runs (session s)
       ∧ InteractivePipelineRun.project_uuid run = project_uuid
       ∧ (InteractivePipelineRun.status run = "PENDING"
          ∨ InteractivePipelineRun.status run = "STARTED"))
  ∧ filter (λ e, run_event e = true)
           (events (DeleteProject._transaction U tpe project_uuid s))
    = flat_map abort_then_delete
               (DeleteProject.select_interactive_runs project_uuid (session s))
  ∧ (∀ run s',
       Forall (λ r, InteractivePipelineRun.run_uuid r
                    ≠ InteractivePipelineRun.run_uuid run)
              (interactive_runs (session (state (session_delete run s'))))).
Proof.
  intros H. split; [intros run; apply select_interactive_runs_spec|].
  split; [by apply _transaction_run_events|].
  intros run s'. rewrite session_delete_runs.
  apply Forall_forall. by intros r [Hr _]%list_elem_of_filter.
Qed.

(** C6.  When the store-mutation phase succeeds, the sessions it stopped
    are the distinct (project, pipeline) pairs of the sessions the project
    has once its runs were handled: the list of pairs has no duplicate, it
    holds the pair of every session of the project and nothing else, and
    the Stop-Session unit was run once on each pair, and on nothing else. *)
Theorem sessions_stopped_once_per_pair (project_uuid : string) (s : Scope) :
  result (DeleteProject._transaction U tpe project_uuid s) = inl tt →
  let db := session (state (DeleteProject.abort_interactive_runs
                              U tpe project_uuid s)) in
  let pairs := DeleteProject.select_sessions project_uuid db in
  NoDup pairs
  ∧ (∀ pair,
       pair ∈ pairs
       ↔ ∃ x, x ∈ interactive_sessions db
              ∧ InteractiveSession.project_uuid x = project_uuid
              ∧ pair = (InteractiveSession.project_uuid x,
                        InteractiveSession.pipeline_uuid x))
  ∧ filter (λ e, stop_event e = true)
           (events (DeleteProject._transaction U tpe project_uuid s))
    = (stop_of project_uuid <$> pairs).
Proof.
  intros H. cbn zeta. split; [apply NoDup_remove_dups|].
  split; [intros pair; apply select_sessions_spec|].
  apply _transaction_events in H as [_ ->].
  rewrite !filter_app.
  rewrite (filter_none _ (flat_map _ _)), (filter_all _ (_ <$> _)),
    (filter_none _ [_]).
  - by rewrite app_nil_r.
  - by repeat constructor.
  - eapply Forall_impl; [apply stop_events_of_pairs|]. by intros e (_ & -> & _).
  - eapply Forall_impl; [apply run_events_of_runs|]. by intros e (_ & -> & _).
Qed.

(** C7, as the code has it.  When the store-mutation phase succeeds, what
    it did, leaving the Delete-Job unit aside, is in this order: abort and
    delete each live interactive run, then stop each session pair, then
    delete the environment images; the image unit comes last, and no
    Project row is deleted. *)
Theorem cascade_order (project_uuid : string) (s : Scope) :
  result (DeleteProject._transaction U tpe project_uuid s) = inl tt →
  let o := DeleteProject._transaction U tpe project_uuid s in
  let db := session (state (DeleteProject.abort_interactive_runs
                              U tpe project_uuid s)) in
  filter (λ e, job_event e = false) (events o)
  = flat_map abort_then_delete
             (DeleteProject.select_interactive_runs project_uuid (session s))
    ++ (stop_of project_uuid <$> DeleteProject.select_sessions project_uuid db)
    ++ [delete_images_of project_uuid]
  ∧ last (events o) = Some (delete_images_of project_uuid)
  ∧ (∀ p, EvDelete (ProjectRow p) ∉ events o).
Proof.
  intros H. cbn zeta.
  apply _transaction_events in H as [_ ->].
  split; [|split].
  - rewrite !filter_app, !filter_all; [done| | |].
    + by repeat constructor.
    + eapply Forall_impl; [apply stop_events_of_pairs|]. by intros e (_ & _ & ->).
    + eapply Forall_impl; [apply run_events_of_runs|]. by intros e (_ & _ & ->).
  - by rewrite !app_assoc, last_snoc.
  - intros p [Hin|[Hin|Hin]%elem_of_app]%elem_of_app.
    + apply elem_of_flat_map in Hin as (run & _ & Hin).
      unfold abort_then_delete in Hin.
      rewrite !elem_of_cons, elem_of_nil in Hin.
      by destruct Hin as [?|[?|[]]].
    + apply list_elem_of_fmap in Hin as (pair & Hin & _). done.
    + by apply list_elem_of_singleton in Hin.
Qed.

(** Whatever the Delete-Job unit is, the store-mutation phase does the
    same: it never enters it. *)
Lemma _transaction_ignores_DeleteJob f (project_uuid : string) (s : Scope) :
  DeleteProject._transaction (with_transaction DeleteJob f U) tpe project_uuid s
  = DeleteProject._transaction U tpe project_uuid s.
Proof. reflexivity. Qed.

End Cascade.

Lemma live_runs_aborted_then_deleted_witness :
  result (DeleteProject._transaction SpecUnits.units Tpe "P1" (opened P1_world))
  = inl tt
  ∧ filter (λ e, run_event e = true)
           (events (DeleteProject._transaction SpecUnits.units Tpe "P1"
                      (opened P1_world)))
    = [ EvTransaction (mkCall AbortPipelineRun ["run-1"]);
        EvDelete (InteractiveRunRow "run-1");
        EvTransaction (mkCall AbortPipelineRun ["run-2"]);
        EvDelete (InteractiveRunRow "run-2") ].
Proof.
  split; [reflexivity|].
  destruct (live_runs_aborted_then_deleted SpecUnits.units Tpe "P1"
              (opened P1_world) eq_refl) as (_ & Hruns & _).
  rewrite Hruns. reflexivity.
Defined.

Lemma sessions_stopped_once_per_pair_witness :
  result (DeleteProject._transaction SpecUnits.units Tpe "P1" (opened P1_world))
  = inl tt
  ∧ NoDup [("P1", "pipe-a")]
  ∧ filter (λ e, stop_event e = true)
           (events (DeleteProject._transaction SpecUnits.units Tpe "P1"
                      (opened P1_world)))
    = [ EvTransaction (mkCall StopInteractiveSession ["P1"; "pipe-a"]) ].
Proof.
  split; [reflexivity|].
  destruct (sessions_stopped_once_per_pair SpecUnits.units Tpe "P1"
              (opened P1_world) eq_refl) as (Hnodup & _ & Hstops).
  split; [exact Hnodup|].
  rewrite Hstops. reflexivity.
Defined.

Lemma cascade_order_witness :
  result (DeleteProject._transaction SpecUnits.units Tpe "P1" (opened P1_world))
  = inl tt
  ∧ filter (λ e, job_event e = false)
           (events (DeleteProject._transaction SpecUnits.units Tpe "P1"
                      (opened P1_world)))
    = [ EvTransaction (mkCall AbortPipelineRun ["run-1"]);
        EvDelete (InteractiveRunRow "run-1");
        EvTransaction (mkCall AbortPipelineRun ["run-2"]);
        EvDelete (InteractiveRunRow "run-2");
        EvTransaction (mkCall StopInteractiveSession ["P1"; "pipe-a"]);
        EvTransaction (mkCall DeleteProjectEnvironmentImages ["P1"]) ].
Proof.
  split; [reflexivity|].
  destruct (cascade_order SpecUnits.units Tpe "P1" (opened P1_world) eq_refl)
    as (Horder & _ & _).
  rewrite Horder. reflexivity.
Defined.

(** C7, as the spec has it, fails on P2, a project without jobs: its
    store-mutation phase succeeds and ends with the image unit, where the
    spec's order ends with the removal of the Project record. *)
Lemma cascade_order_counterexample :
  result (DeleteProject._transaction SpecUnits.units Tpe "P2" (opened P1_world))
  = inl tt
  ∧ events (DeleteProject._transaction SpecUnits.units Tpe "P2" (opened P1_world))
    ≠ spec_cascade "P2" (store P1_world).
Proof.
  split; [reflexivity|].
  intros H. vm_compute in H. discriminate H.
Qed.

(** ** The job loop *)

(** C1 fails on the code.  Deleting P1, which owns job-1, answers 200 and
    the job is still there with its PENDING run: the Delete-Job unit was
    never entered, its collateral phase never queued, no cancel issued.
    Run on the same store, the unit does remove the job and its runs. *)
Theorem delete_job_not_run :
  let o := Project.delete SpecUnits.units "P1" P1_world in
  result o = inl deleted
  ∧ DeleteProject.select_jobs "P1" (store P1_world) = ["job-1"]
  ∧ jobs (store (state o)) = [Job.mk "job-1" "P1"]
  ∧ job_runs (store (state o))
    = [NonInteractivePipelineRun.mk "run-4" "job-1" "PENDING"]
  ∧ (delete_job_of "job-1" ∉ events o)
  ∧ (EvCollateral (mkCall DeleteJob ["job-1"]) ∉ events o)
  ∧ (infra_cancel "job-1" ∉ backend (state o))
  ∧ (let unit_run := transaction SpecUnits.units (new DeleteJob Tpe) ["job-1"]
                                 (opened P1_world) in
     result unit_run = inl tt
     ∧ jobs (session (state unit_run)) = []
     ∧ job_runs (session (state unit_run)) = []).
Proof.
  cbn zeta. repeat split; try reflexivity; by_computation.
Qed.

(** ** What a deletion leaves in the store *)

Lemma live_selected p db r :
  r ∈ interactive_runs db → InteractivePipelineRun.project_uuid r = p → live r →
  r ∈ DeleteProject.select_interactive_runs p db.
Proof.
  intros Hr Hp Hlive. apply select_interactive_runs_spec.
  unfold live in Hlive. rewrite !elem_of_cons, elem_of_nil in Hlive. tauto.
Qed.

Lemma selected_live p db r :
  r ∈ DeleteProject.select_interactive_runs p db → live r.
Proof.
  intros (_ & _ & Hr)%select_interactive_runs_spec.
  unfold live. rewrite !elem_of_cons. tauto.
Qed.

Lemma run_collateral_quiet U c b :
  Forall (λ e, store_event e = false) (events (run_collateral U c b)).
Proof.
  unfold run_collateral, bind, captured, log. simpl.
  destruct (result (collateral U c b)) as [[]|e] eqn:Hc; simpl;
    rewrite collateral_silent; by repeat constructor.
Qed.

Lemma drain_quiet U q b :
  Forall (λ e, store_event e = false) (events (drain U q b)).
Proof.
  revert b. induction q as [|c q IH]; intros b; [constructor|].
  rewrite drain_cons. cbn [events].
  apply Forall_app. split; [apply run_collateral_quiet|apply IH].
Qed.





(** What a successful request did to runs: the abort and the delete of
    each selected run. *)
Lemma delete_run_events U p w :
  result (store_phase U p w) = inl tt →
  filter (λ e, run_event e = true) (events (Project.delete U p w))
  = flat_map abort_then_delete
             (DeleteProject.select_interactive_runs p (store w)).
Proof.
  intros Hphase. rewrite delete_commit by done. cbn [events].
  unfold store_phase, DeleteProject.transaction in *.
  rewrite two_phase_events by done.
  apply bind_success in Hphase as ([] & _ & Hphase & _).
  apply bind_success in Hphase as ([] & Htransaction & _).
  cbn [log state] in Htransaction.
  pose proof (_transaction_run_events U Tpe p (opened w) Htransaction) as Hruns.
  rewrite filter_app, filter_cons_False by done.
  rewrite Hruns, filter_none; [by rewrite app_nil_r|].
  constructor; [done|].
  eapply Forall_impl; [apply drain_quiet|]. intros [] ?; done.
Qed.

(** C9.  In a store whose runs have distinct uuids, a run that is neither
    PENDING nor STARTED is left as it is by the deletion of a project, its
    own included: its row is in the committed store, and the deletion
    neither ran the Abort-Run unit on it nor deleted it. *)
Theorem finished_runs_untouched (project_uuid : string) (w : World)
    (r : InteractivePipelineRun.t) :
  NoDup (InteractivePipelineRun.run_uuid <$> interactive_runs (store w)) →
  r ∈ interactive_runs (store w) →
  ¬ live r →
  let o := Project.delete SpecUnits.units project_uuid w in
  r ∈ interactive_runs (store (state o))
  ∧ (EvTransaction (mkCall AbortPipelineRun [InteractivePipelineRun.run_uuid r])
     ∉ events o)
  ∧ (EvDelete (InteractiveRunRow (InteractivePipelineRun.run_uuid r))
     ∉ events o).
Proof.
  intros Hkeys Hr Hfinished. cbn zeta.
  assert (∀ x, x ∈ DeleteProject.select_interactive_runs project_uuid (store w) →
               InteractivePipelineRun.run_uuid x
               ≠ InteractivePipelineRun.run_uuid r) as Hother.
  { intros x Hx Hkey. apply Hfinished.
    rewrite <-(NoDup_key _ _ x r Hkeys); [by eapply selected_live| |done|done].
    by apply select_interactive_runs_spec in Hx as (? & _). }
  assert (∀ e, run_event e = true →
               e ∈ abort_then_delete r →
               e ∉ events (Project.delete SpecUnits.units project_uuid w))
    as Hevents.
  { intros e He Hin Hev.
    assert (e ∈ filter (λ e, run_event e = true)
                       (events (Project.delete SpecUnits.units project_uuid w)))
      as Hrun by by apply list_elem_of_filter.
    rewrite delete_run_events in Hrun.
    - apply elem_of_flat_map in Hrun as (x & Hx & Hex).
      apply (Hother x Hx). unfold abort_then_delete in *.
      rewrite !elem_of_cons, elem_of_nil in Hin, Hex.
      destruct Hin as [->|[->|[]]], Hex as [Hex|[Hex|[]]]; congruence.
    - destruct (spec_transaction Tpe project_uuid (opened w)) as (R & _).
      unfold store_phase, DeleteProject.transaction. by rewrite two_phase_run. }
  split; [|split].
  - destruct (spec_delete project_uuid w) as [_ ->].
    destruct (spec_transaction Tpe project_uuid (opened w)) as (_ & -> & _).
    apply list_elem_of_filter. split; [|done].
    intros (x & Hkey & Hx)%list_elem_of_fmap. by apply (Hother x).
  - apply Hevents; [done|]. apply elem_of_cons. by left.
  - apply Hevents; [done|]. apply elem_of_cons. right. apply elem_of_cons. by left.
Qed.

Lemma finished_runs_untouched_witness :
  NoDup (InteractivePipelineRun.run_uuid <$> interactive_runs (store P1_world))
  ∧ InteractivePipelineRun.mk "run-3" "P1" "pipe-a" "SUCCESS"
    ∈ interactive_runs (store P1_world)
  ∧ ¬ live (InteractivePipelineRun.mk "run-3" "P1" "pipe-a" "SUCCESS")
  ∧ InteractivePipelineRun.mk "run-3" "P1" "pipe-a" "SUCCESS"
    ∈ interactive_runs (store (state (Project.delete SpecUnits.units "P1"
                                        P1_world))).
Proof.
  assert (NoDup (InteractivePipelineRun.run_uuid
                 <$> interactive_runs (store P1_world))) as Hkeys
    by by_computation.
  assert (InteractivePipelineRun.mk "run-3" "P1" "pipe-a" "SUCCESS"
          ∈ interactive_runs (store P1_world)) as Hr
    by by_computation.
  assert (¬ live (InteractivePipelineRun.mk "run-3" "P1" "pipe-a" "SUCCESS"))
    as Hfinished
    by by_computation.
  split; [exact Hkeys|]. split; [exact Hr|]. split; [exact Hfinished|].
  exact (proj1 (finished_runs_untouched "P1" P1_world _ Hkeys Hr Hfinished)).
Defined.

(** ** The store-mutation phase, whatever its outcome *)

Section AnyOutcome.
Variable U : Imports.
Variable tpe : TwoPhaseExecutor.

Lemma two_phase_events_any c (m : M Scope unit) s :
  events (two_phase c m s) = EvTransaction c :: events (m s).
Proof.
  unfold two_phase, bind, log, enqueue, modify. simpl.
  destruct (result (m s)); simpl; by rewrite ?app_nil_r.
Qed.

Lemma transaction_events_any self args s :
  events (transaction U self args s)
  = [EvTransaction (mkCall (instance_of self) args)].
Proof. unfold transaction. by rewrite two_phase_events_any. Qed.

(** One turn of the run loop: the abort is entered; the delete follows when
    the abort returned, and only then. *)
Lemma abort_turn_any run s :
  let turn := bind (transaction U (new AbortPipelineRun tpe)
                                [InteractivePipelineRun.run_uuid run])
                   (λ _, session_delete run) s in
  events turn `prefix_of` abort_then_delete run
  ∧ (result turn = inl tt → events turn = abort_then_delete run).
Proof.
  cbn zeta. unfold bind.
  destruct (result (transaction U _ _ s)) as [[]|e] eqn:Habort;
    cbn [result events]; rewrite transaction_events_any.
  - by split.
  - split; [|done]. by exists [EvDelete (InteractiveRunRow
                                           (InteractivePipelineRun.run_uuid run))].
Qed.

Lemma for_events_prefix {S A} (l : list A) (body : A → M S unit)
    (g : A → list Event) :
  (∀ x s, events (body x s) `prefix_of` g x
          ∧ (result (body x s) = inl tt → events (body x s) = g x)) →
  ∀ s, events (for_ l body s) `prefix_of` flat_map g l.
Proof.
  intros Hbody. induction l as [|x l IH]; intros s; simpl; [done|].
  destruct (Hbody x s) as [Hprefix Hfull]. unfold bind.
  destruct (result (body x s)) as [[]|e]; cbn [events].
  - rewrite Hfull by done. apply prefix_app, IH.
  - by apply prefix_app_r.
Qed.

Lemma emits_for_in {S A} (P : Event → Prop) (l : list A) (body : A → M S unit) :
  (∀ x, x ∈ l → emits P (body x)) → emits P (for_ l body).
Proof.
  induction l as [|x l IH]; intros Hbody; simpl.
  - apply emits_ret.
  - apply emits_bind.
    + apply Hbody, elem_of_cons. by left.
    + intros _. apply IH. intros y Hy. apply Hbody, elem_of_cons. by right.
Qed.

Lemma emits_abort_interactive_runs (P : Event → Prop) p :
  (∀ e, run_event e = true → P e) →
  emits P (DeleteProject.abort_interactive_runs U tpe p).
Proof.
  intros HP. unfold DeleteProject.abort_interactive_runs.
  apply emits_bind; [apply emits_gets|intros runs].
  apply emits_for. intros run.
  apply emits_bind; [|intros ?].
  - apply emits_transaction. by apply HP.
  - apply emits_session_delete. by apply HP.
Qed.

(** What follows the run loop touches no run. *)
Lemma emits_after_runs p :
  emits (λ e, run_event e = false)
        (bind (DeleteProject.stop_interactive_sessions U tpe p) (λ _,
         bind (DeleteProject.delete_jobs U tpe p) (λ _,
         transaction U (new DeleteProjectEnvironmentImages tpe) [p]))).
Proof.
  apply emits_bind; [|intros ?; apply emits_bind; [|intros ?]].
  - unfold DeleteProject.stop_interactive_sessions.
    apply emits_bind; [apply emits_gets|intros sessions].
    apply emits_for. intros pair. by apply emits_transaction.
  - intros s. rewrite delete_jobs_noop. constructor.
  - by apply emits_transaction.
Qed.

Lemma for_app {S A} (l1 l2 : list A) (body : A → M S unit) s :
  result (for_ l1 body s) = inl tt →
  for_ (l1 ++ l2) body s
  = mkOutcome (result (for_ l2 body (state (for_ l1 body s))))
              (state (for_ l2 body (state (for_ l1 body s))))
              (events (for_ l1 body s)
               ++ events (for_ l2 body (state (for_ l1 body s)))).
Proof.
  revert s. induction l1 as [|x l1 IH]; intros s H.
  - simpl. by destruct (for_ l2 body s).
  - cbn [for_ app] in *.
    apply bind_success in H as ([] & Hx & Hl & Hev & Hst).
    rewrite (bind_run _ _ _ tt) by done. rewrite IH by done.
    cbn [result state events]. rewrite Hev, Hst. by rewrite <-app_assoc.
Qed.

Lemma two_phase_raise c (m : M Scope unit) s e :
  result (m s) = inr e →
  two_phase c m s
  = mkOutcome (inr e) (state (m s)) (EvTransaction c :: events (m s)).
Proof.
  intros Hm. unfold two_phase.
  rewrite (bind_run _ _ _ tt) by done. cbn [log state events result].
  by rewrite (bind_raise _ _ _ e) by done.
Qed.

Lemma abort_each_events l s :
  result (abort_each U tpe l s) = inl tt →
  events (abort_each U tpe l s) = flat_map abort_then_delete l.
Proof.
  unfold abort_each. apply for_events.
  intros run s' Hrun.
  apply bind_success in Hrun as ([] & Habort & _ & -> & _).
  by rewrite transaction_events.
Qed.

(** The run loop when the abort of [run] raises, the runs before it having
    been handled. *)
Lemma abort_each_raise pre run post e s :
  result (abort_each U tpe pre s) = inl tt →
  (imported_transaction U AbortPipelineRun
     [InteractivePipelineRun.run_uuid run]
     (state (abort_each U tpe pre s))).1 = inr e →
  abort_each U tpe (pre ++ run :: post) s
  = mkOutcome (inr e)
      (imported_transaction U AbortPipelineRun
         [InteractivePipelineRun.run_uuid run]
         (state (abort_each U tpe pre s))).2
      (flat_map abort_then_delete pre
       ++ [EvTransaction (mkCall AbortPipelineRun
                            [InteractivePipelineRun.run_uuid run])]).
Proof.
  intros Hpre Hraise. pose proof (abort_each_events _ _ Hpre) as Hev.
  unfold abort_each in *. rewrite for_app by done. rewrite Hev.
  set (s1 := state (for_ pre _ s)) in *.
  cbn [for_].
  assert (transaction U (new AbortPipelineRun tpe)
            [InteractivePipelineRun.run_uuid run] s1
          = mkOutcome (inr e)
              (imported_transaction U AbortPipelineRun
                 [InteractivePipelineRun.run_uuid run] s1).2
              [EvTransaction (mkCall AbortPipelineRun
                                [InteractivePipelineRun.run_uuid run])])
    as Habort.
  { unfold transaction. by rewrite (two_phase_raise _ _ _ e). }
  rewrite (bind_raise _ _ _ e); rewrite (bind_raise _ _ _ e);
    by rewrite Habort.
Qed.

(** Whatever the outcome of the store-mutation phase, what it did to runs
    is an initial segment of "abort, then delete" over the selected runs, in
    the order of the selection.  And when the Abort-Run unit raises on a
    selected run, the runs before it having been handled, the phase raises
    that exception and stops there: its events are the abort and the delete
    of each earlier run, then the entry of the abort that raised; the run is
    not deleted, no later run is touched, no session is stopped, no image
    unit is entered, and the scope is as the failing unit left it. *)
Theorem runs_handled_in_order_until_failure (project_uuid : string) (s : Scope) :
  let selected :=
    DeleteProject.select_interactive_runs project_uuid (session s) in
  let o := DeleteProject._transaction U tpe project_uuid s in
  filter (λ e, run_event e = true) (events o)
  `prefix_of` flat_map abort_then_delete selected
  ∧ (∀ pre run post e,
       selected = pre ++ run :: post →
       result (abort_each U tpe pre s) = inl tt →
       (imported_transaction U AbortPipelineRun
          [InteractivePipelineRun.run_uuid run]
          (state (abort_each U tpe pre s))).1 = inr e →
       result o = inr e
       ∧ events o
         = flat_map abort_then_delete pre
           ++ [EvTransaction (mkCall AbortPipelineRun
                                [InteractivePipelineRun.run_uuid run])]
       ∧ state o
         = (imported_transaction U AbortPipelineRun
              [InteractivePipelineRun.run_uuid run]
              (state (abort_each U tpe pre s))).2).
Proof.
  cbn zeta. split.
  {
    assert (events (DeleteProject.abort_interactive_runs U tpe project_uuid s)
            `prefix_of`
            flat_map abort_then_delete
              (DeleteProject.select_interactive_runs project_uuid (session s)))
      as Hprefix.
    { unfold DeleteProject.abort_interactive_runs.
      rewrite (bind_run _ _ _ (DeleteProject.select_interactive_runs
                                 project_uuid (session s))) by done.
      cbn [gets events state app]. apply for_events_prefix.
      intros run s'. apply abort_turn_any. }
    pose proof (emits_abort_interactive_runs (λ e, run_event e = true)
                  project_uuid (λ e He, He) s) as Hruns.
    unfold DeleteProject._transaction, bind at 1.
    destruct (result (DeleteProject.abort_interactive_runs U tpe project_uuid s))
      as [[]|e] eqn:Hloop; cbn [events].
    - rewrite filter_app, filter_all, filter_none by
        (done || (eapply Forall_impl; [apply emits_after_runs|];
                  by intros e' ->)).
      by rewrite app_nil_r.
    - by rewrite filter_all.
  }
  intros pre run post e Hselected Hpre Hraise.
  pose proof (abort_each_raise pre run post e s Hpre Hraise) as Hloop.
  rewrite <-Hselected in Hloop.
  assert (DeleteProject.abort_interactive_runs U tpe project_uuid s
          = abort_each U tpe
              (DeleteProject.select_interactive_runs project_uuid (session s)) s)
    as Hblock.
  { unfold DeleteProject.abort_interactive_runs.
    rewrite (bind_run _ _ _ (DeleteProject.select_interactive_runs
                               project_uuid (session s))) by done.
    cbn [gets result state events app]. unfold abort_each.
    by destruct (for_ _ _ s). }
  unfold DeleteProject._transaction.
  rewrite (bind_raise _ _ _ e) by (by rewrite Hblock, Hloop).
  by rewrite Hblock, Hloop.
Qed.

Lemma Forall_events_bind {S A B} (P : Event → Prop) (m : M S A)
    (k : A → M S B) s :
  Forall P (events (m s)) → (∀ a, emits P (k a)) →
  Forall P (events (bind m k s)).
Proof.
  intros Hm Hk. unfold bind. destruct (result (m s)); simpl; [|done].
  apply Forall_app. split; [done|apply Hk].
Qed.

(** Whatever the outcome of the store-mutation phase, every unit it enters
    and every row it deletes is the project's own: Abort-Run and the delete
    go to runs the query selected, which are PENDING or STARTED runs of the
    project; Stop-Session and Delete-Environment-Images get the project's
    uuid; no Delete-Job unit is entered and no other row is deleted. *)
Theorem cascade_stays_in_project (project_uuid : string) (s : Scope) :
  Forall (own_event project_uuid (session s))
         (events (DeleteProject._transaction U tpe project_uuid s))
  ∧ (∀ run, run ∈ DeleteProject.select_interactive_runs project_uuid (session s) →
            run ∈ interactive_runs (session s)
            ∧ InteractivePipelineRun.project_uuid run = project_uuid
            ∧ live run).
Proof.
  split.
  - unfold DeleteProject._transaction.
    apply Forall_events_bind;
      [|intros ?; apply emits_bind; [|intros ?; apply emits_bind; [|intros ?]]].
    + unfold DeleteProject.abort_interactive_runs.
      rewrite (bind_run _ _ _ (DeleteProject.select_interactive_runs
                                 project_uuid (session s))) by done.
      cbn [gets events state app].
      apply emits_for_in. intros run Hrun.
      apply emits_bind; [|intros ?].
      * apply emits_transaction. by exists run.
      * apply emits_session_delete. by exists run.
    + unfold DeleteProject.stop_interactive_sessions.
      apply emits_bind; [apply emits_gets|intros sessions].
      apply emits_for. intros pair. apply emits_transaction. by exists pair.2.
    + intros s'. rewrite delete_jobs_noop. constructor.
    + by apply emits_transaction.
  - intros run Hrun. pose proof (selected_live _ _ _ Hrun) as Hlive.
    apply select_interactive_runs_spec in Hrun as (? & ? & _). done.
Qed.

(** The loop over the jobs of the project (lines 86-94) has no effect: it
    returns without raising, leaves the session and the collateral queue as
    they are and enters no unit, however many jobs the project has; and the
    whole two-phase function does the same whatever the Delete-Job unit's
    store phase is. *)
Theorem job_loop_has_no_effect (project_uuid : string) (s : Scope) :
  DeleteProject.delete_jobs U tpe project_uuid s = mkOutcome (inl tt) s []
  ∧ (∀ f, DeleteProject.transaction (with_transaction DeleteJob f U) tpe
                                    project_uuid s
          = DeleteProject.transaction U tpe project_uuid s).
Proof. split; [apply delete_jobs_noop|done]. Qed.

End AnyOutcome.

(** ** A project with nothing to stop *)

Section NothingToStop.
Variable U : Imports.

Lemma abort_interactive_runs_none tpe p s :
  DeleteProject.select_interactive_runs p (session s) = [] →
  DeleteProject.abort_interactive_runs U tpe p s = mkOutcome (inl tt) s [].
Proof.
  intros Hnone. unfold DeleteProject.abort_interactive_runs.
  rewrite (bind_run _ _ _ (DeleteProject.select_interactive_runs p (session s)))
    by done.
  by rewrite Hnone.
Qed.

Lemma stop_interactive_sessions_none tpe p s :
  DeleteProject.select_sessions p (session s) = [] →
  DeleteProject.stop_interactive_sessions U tpe p s = mkOutcome (inl tt) s [].
Proof.
  intros Hnone. unfold DeleteProject.stop_interactive_sessions.
  rewrite (bind_run _ _ _ (DeleteProject.select_sessions p (session s)))
    by done.
  by rewrite Hnone.
Qed.

(** With nothing selected, the store-mutation phase is the image unit. *)
Lemma _transaction_none tpe p s :
  DeleteProject.select_interactive_runs p (session s) = [] →
  DeleteProject.select_sessions p (session s) = [] →
  let o := DeleteProject._transaction U tpe p s in
  let images := transaction U (new DeleteProjectEnvironmentImages tpe) [p] s in
  result o = result images ∧ state o = state images ∧ events o = events images.
Proof.
  intros Hruns Hsessions. cbn zeta. unfold DeleteProject._transaction.
  rewrite (bind_run _ _ _ tt) by (by rewrite abort_interactive_runs_none).
  rewrite abort_interactive_runs_none by done. cbn [state events app result].
  rewrite (bind_run _ _ _ tt) by (by rewrite stop_interactive_sessions_none).
  rewrite stop_interactive_sessions_none by done. cbn [state events app result].
  rewrite (bind_run _ _ _ tt) by (by rewrite delete_jobs_noop).
  by rewrite delete_jobs_noop.
Qed.

Lemma select_interactive_runs_none p db :
  Forall (λ r, InteractivePipelineRun.project_uuid r = p → ¬ live r)
         (interactive_runs db) →
  DeleteProject.select_interactive_runs p db = [].
Proof.
  intros Hnone. unfold DeleteProject.select_interactive_runs.
  apply filter_none, Forall_forall.
  intros r [Hp Hr]%list_elem_of_filter Hlive.
  by apply (proj1 (Forall_forall _ _) Hnone r).
Qed.

Lemma select_sessions_none p db :
  Forall (λ x, InteractiveSession.project_uuid x ≠ p) (interactive_sessions db) →
  DeleteProject.select_sessions p db = [].
Proof.
  intros Hnone. unfold DeleteProject.select_sessions.
  by rewrite filter_none.
Qed.

Lemma transaction_result self args s :
  result (transaction U self args s)
  = (imported_transaction U (instance_of self) args s).1.
Proof. unfold transaction. by rewrite two_phase_result. Qed.

Lemma transaction_session self args s :
  result (transaction U self args s) = inl tt →
  session (state (transaction U self args s))
  = session (imported_transaction U (instance_of self) args s).2.
Proof.
  intros H. unfold transaction in *. rewrite two_phase_result in H.
  by rewrite two_phase_run.
Qed.

(** The endpoint does not look the project up.  When the store holds no
    PENDING or STARTED run and no session of the project, be the project
    unknown or already deleted, the request still enters the
    Delete-Environment-Images unit on that uuid, and nothing else; it
    answers 200 and commits that unit's session when the unit returns, and
    leaves the world unchanged when it raises, answering 500 to an
    [Exception] and raising anything else. *)
Theorem delete_with_nothing_to_stop (project_uuid : string) (w : World) :
  Forall (λ r, InteractivePipelineRun.project_uuid r = project_uuid → ¬ live r)
         (interactive_runs (store w)) →
  Forall (λ x, InteractiveSession.project_uuid x ≠ project_uuid)
         (interactive_sessions (store w)) →
  let images := imported_transaction U DeleteProjectEnvironmentImages
                                     [project_uuid] (opened w) in
  let o := Project.delete U project_uuid w in
  filter (λ e, store_event e = true) (events o)
  = [EvTransaction (mkCall DeleteProject [project_uuid]);
     delete_images_of project_uuid]
  ∧ match images.1 with
    | inl _ => result o = inl deleted ∧ store (state o) = session images.2
    | inr e =>
        result o = match e with
                   | Exception _ => inl (Project.mkResponse (str e) 500)
                   | BaseException _ => inr e
                   end
        ∧ state o = w
    end.
Proof.
  intros Hruns%select_interactive_runs_none Hsessions%select_sessions_none.
  cbn zeta.
  destruct (_transaction_none Tpe project_uuid (opened w) Hruns Hsessions)
    as (Hresult & Hstate & Hevents).
  rewrite transaction_result in Hresult. rewrite transaction_events_any in Hevents.
  cbn [instance_of] in *.
  assert (events (store_phase U project_uuid w)
          = [EvTransaction (mkCall DeleteProject [project_uuid]);
             delete_images_of project_uuid]) as Hphase_events.
  { unfold store_phase, DeleteProject.transaction.
    by rewrite two_phase_events_any, Hevents. }
  assert (result (store_phase U project_uuid w)
          = (imported_transaction U DeleteProjectEnvironmentImages
                                  [project_uuid] (opened w)).1) as Hphase.
  { unfold store_phase, DeleteProject.transaction.
    by rewrite two_phase_result. }
  destruct ((imported_transaction U DeleteProjectEnvironmentImages
                                  [project_uuid] (opened w)).1)
    as [[]|e] eqn:Himages.
  - rewrite delete_commit by done. cbn [events result state store].
    rewrite filter_app, Hphase_events. split.
    + rewrite (filter_none _ (EvCommit :: _)); [done|].
      constructor; [done|].
      eapply Forall_impl; [apply drain_quiet|]. by intros e ->.
    + split; [done|].
      unfold store_phase, DeleteProject.transaction.
      rewrite two_phase_run by (by rewrite Hresult). cbn [session].
      rewrite Hstate. apply transaction_session.
      by rewrite transaction_result.
  - rewrite (delete_raise _ _ _ e) by done. cbn [events result state].
    by rewrite Hphase_events.
Qed.

End NothingToStop.

Lemma delete_with_nothing_to_stop_witness :
  Forall (λ r, InteractivePipelineRun.project_uuid r = "P9" → ¬ live r)
         (interactive_runs (store P1_world))
  ∧ Forall (λ x, InteractiveSession.project_uuid x ≠ "P9")
           (interactive_sessions (store P1_world))
  ∧ filter (λ e, store_event e = true)
           (events (Project.delete SpecUnits.units "P9" P1_world))
    = [EvTransaction (mkCall DeleteProject ["P9"]); delete_images_of "P9"].
Proof.
  assert (Forall (λ r, InteractivePipelineRun.project_uuid r = "P9" → ¬ live r)
                 (interactive_runs (store P1_world))) as Hruns
    by by_computation.
  assert (Forall (λ x, InteractiveSession.project_uuid x ≠ "P9")
                 (interactive_sessions (store P1_world))) as Hsessions
    by by_computation.
  split; [exact Hruns|]. split; [exact Hsessions|].
  exact (proj1 (delete_with_nothing_to_stop SpecUnits.units "P9" P1_world
                  Hruns Hsessions)).
Defined.

(** ** Deletions over the spec's adapters: other projects, retries, calls *)

Lemma filter_ext_in {A} (P Q : A → Prop) `{!∀ x, Decision (P x)}
    `{!∀ x, Decision (Q x)} (l : list A) :
  (∀ x, x ∈ l → P x ↔ Q x) → filter P l = filter Q l.
Proof.
  induction l as [|x l IH]; intros Hext; [done|].
  rewrite !filter_cons.
  assert (P x ↔ Q x) as Hx by (apply Hext, elem_of_cons; by left).
  rewrite IH by (intros y Hy; apply Hext, elem_of_cons; by right).
  destruct (decide (P x)), (decide (Q x)); tauto.
Qed.

(** The store a deletion commits, table by table. *)
Lemma spec_delete_store p w :
  let db := store (state (Project.delete SpecUnits.units p w)) in
  interactive_runs db
  = filter (λ r, InteractivePipelineRun.run_uuid r
                 ∉ (InteractivePipelineRun.run_uuid
                    <$> DeleteProject.select_interactive_runs p (store w)))
           (interactive_runs (store w))
  ∧ interactive_sessions db
    = filter (λ x, ¬ (InteractiveSession.project_uuid x = p
                      ∧ InteractiveSession.pipeline_uuid x
                        ∈ (snd <$> DeleteProject.select_sessions p (store w))))
             (interactive_sessions (store w))
  ∧ jobs db = jobs (store w)
  ∧ environment_images db
    = filter (λ i, EnvironmentImage.project_uuid i ≠ p)
             (environment_images (store w))
  ∧ projects db = projects (store w).
Proof.
  cbn zeta. destruct (spec_delete p w) as [_ ->].
  destruct (spec_transaction Tpe p (opened w)) as (_ & H). exact H.
Qed.

(** Aborting runs that are no job's leaves the runs of the jobs as they
    are. *)
Lemma abort_run_job_runs u (db : DB) :
  (∀ r, r ∈ job_runs db → NonInteractivePipelineRun.run_uuid r ≠ u) →
  job_runs (SpecUnits.abort_run u db) = job_runs db.
Proof.
  intros Hu. simpl. induction (job_runs db) as [|r l IH]; [done|].
  rewrite fmap_cons, IH by (intros x Hx; apply Hu, elem_of_cons; by right).
  destruct (decide (NonInteractivePipelineRun.run_uuid r = u)) as [Hr|Hr]; [|done].
  destruct (Hu r); [apply elem_of_cons; by left|done].
Qed.

Lemma abort_loop_job_runs tpe (l : list InteractivePipelineRun.t) s :
  (∀ r, r ∈ job_runs (session s) →
        NonInteractivePipelineRun.run_uuid r
        ∉ (InteractivePipelineRun.run_uuid <$> l)) →
  job_runs (session (state (abort_each SpecUnits.units tpe l s)))
  = job_runs (session s).
Proof.
  unfold abort_each. revert s. induction l as [|run l IH]; intros s Hl; [done|].
  cbn [for_]. rewrite (bind_run _ _ _ tt) by (by rewrite abort_turn).
  rewrite abort_turn. cbn [result state events].
  assert (job_runs (session (state (session_delete run
            (mkScope
               (SpecUnits.abort_run (InteractivePipelineRun.run_uuid run)
                                    (session s))
               (collateral_queue s
                ++ [mkCall AbortPipelineRun
                      [InteractivePipelineRun.run_uuid run]])))))
          = job_runs (session s)) as Hturn.
  { change (job_runs (SpecUnits.abort_run (InteractivePipelineRun.run_uuid run)
                                          (session s))
            = job_runs (session s)).
    apply abort_run_job_runs. intros r Hr Hu.
    apply (Hl r Hr). rewrite fmap_cons, Hu. apply elem_of_cons. by left. }
  rewrite IH; [done|].
  rewrite Hturn. intros r Hr Hin. apply (Hl r Hr).
  rewrite fmap_cons. apply elem_of_cons. by right.
Qed.

(** The runs of the jobs after a deletion, when no job run has the uuid of
    a selected interactive run. *)
Lemma spec_delete_job_runs p w :
  (∀ r, r ∈ job_runs (store w) →
        NonInteractivePipelineRun.run_uuid r
        ∉ (InteractivePipelineRun.run_uuid
           <$> DeleteProject.select_interactive_runs p (store w))) →
  job_runs (store (state (Project.delete SpecUnits.units p w)))
  = job_runs (store w).
Proof.
  intros Hfresh. destruct (spec_delete p w) as [_ ->].
  destruct (abort_block Tpe p (opened w)) as (R1 & _ & _).
  assert (job_runs (session (state (DeleteProject.abort_interactive_runs
                                      SpecUnits.units Tpe p (opened w))))
          = job_runs (store w)) as Hj1.
  { unfold DeleteProject.abort_interactive_runs.
    rewrite (bind_run _ _ _ (DeleteProject.select_interactive_runs p
                               (session (opened w)))) by done.
    cbn [gets result state events]. by apply (abort_loop_job_runs Tpe). }
  set (s1 := state (DeleteProject.abort_interactive_runs SpecUnits.units Tpe p
                      (opened w))) in *.
  destruct (stop_block Tpe p s1) as (R2 & _ & Hbeside).
  set (s2 := state (DeleteProject.stop_interactive_sessions SpecUnits.units Tpe
                      p s1)) in *.
  unfold DeleteProject._transaction.
  rewrite (bind_run _ _ _ tt) by done. fold s1.
  rewrite (bind_run _ _ _ tt) by done. fold s2.
  rewrite (bind_run _ _ _ tt) by (by rewrite delete_jobs_noop).
  rewrite delete_jobs_noop, images_turn. cbn [result state events session].
  unfold beside_sessions in Hbeside. injection Hbeside as _ _ Hj2 _ _.
  cbn [SpecUnits.delete_images job_runs]. by rewrite Hj2.
Qed.

(** Over the spec's adapters, and in a store whose runs, interactive or of
    a job, have distinct uuids, deleting a project leaves the rows of every
    other project in place: the interactive runs, sessions, jobs and images
    that reference another project are, in order, those of the store
    before, and so are the runs of the jobs. *)
Theorem other_projects_untouched (project_uuid : string) (w : World) :
  NoDup ((InteractivePipelineRun.run_uuid <$> interactive_runs (store w))
         ++ (NonInteractivePipelineRun.run_uuid <$> job_runs (store w))) →
  let db := store (state (Project.delete SpecUnits.units project_uuid w)) in
  filter (λ r, InteractivePipelineRun.project_uuid r ≠ project_uuid)
         (interactive_runs db)
  = filter (λ r, InteractivePipelineRun.project_uuid r ≠ project_uuid)
           (interactive_runs (store w))
  ∧ filter (λ x, InteractiveSession.project_uuid x ≠ project_uuid)
           (interactive_sessions db)
    = filter (λ x, InteractiveSession.project_uuid x ≠ project_uuid)
             (interactive_sessions (store w))
  ∧ filter (λ j, Job.project_uuid j ≠ project_uuid) (jobs db)
    = filter (λ j, Job.project_uuid j ≠ project_uuid) (jobs (store w))
  ∧ filter (λ i, EnvironmentImage.project_uuid i ≠ project_uuid)
           (environment_images db)
    = filter (λ i, EnvironmentImage.project_uuid i ≠ project_uuid)
             (environment_images (store w))
  ∧ job_runs db = job_runs (store w).
Proof.
  intros (Hkeys & Hapart & _)%NoDup_app. cbn zeta.
  split; [|split; [|split; [|split]]].
  5: { apply spec_delete_job_runs. intros r Hr (x & Hkey & Hx)%list_elem_of_fmap.
       apply select_interactive_runs_spec in Hx as (Hx & _).
       apply (Hapart (InteractivePipelineRun.run_uuid x)).
       - by apply list_elem_of_fmap_2.
       - rewrite <-Hkey. by apply list_elem_of_fmap_2. }
  all: destruct (spec_delete_store project_uuid w) as (Hr & Hx & Hj & Hi & _).
  - rewrite Hr, list_filter_filter. apply filter_ext_in.
    intros r Hin. split; [tauto|]. intros Hp. split; [done|].
    intros (x & Hkey & Hsel)%list_elem_of_fmap.
    apply select_interactive_runs_spec in Hsel as (Hsel & Hxp & _).
    apply Hp. by rewrite (NoDup_key _ _ r x Hkeys Hin Hsel Hkey).
  - rewrite Hx, list_filter_filter. apply list_filter_iff. intros x. tauto.
  - by rewrite Hj.
  - rewrite Hi, list_filter_filter. apply list_filter_iff. intros i. tauto.
Qed.

Lemma other_projects_untouched_witness :
  NoDup ((InteractivePipelineRun.run_uuid <$> interactive_runs (store P1_world))
         ++ (NonInteractivePipelineRun.run_uuid <$> job_runs (store P1_world)))
  ∧ filter (λ r, InteractivePipelineRun.project_uuid r ≠ "P1")
           (interactive_runs (store (state (Project.delete SpecUnits.units "P1"
                                              P1_world))))
    = [ InteractivePipelineRun.mk "run-8" "P2" "pipe-z" "FAILURE";
        InteractivePipelineRun.mk "run-9" "P2" "pipe-z" "PENDING" ].
Proof.
  assert (NoDup ((InteractivePipelineRun.run_uuid
                  <$> interactive_runs (store P1_world))
                 ++ (NonInteractivePipelineRun.run_uuid
                     <$> job_runs (store P1_world)))) as Hkeys
    by by_computation.
  split; [exact Hkeys|].
  rewrite (proj1 (other_projects_untouched "P1" P1_world Hkeys)).
  reflexivity.
Defined.

Lemma spec_delete_nothing_left p w :
  let db := store (state (Project.delete SpecUnits.units p w)) in
  DeleteProject.select_interactive_runs p db = []
  ∧ DeleteProject.select_sessions p db = []
  ∧ SpecUnits.delete_images p db = db.
Proof.
  cbn zeta. destruct (spec_delete_store p w) as (Hruns & Hsessions & _ & Himages & _).
  split; [|split].
  - apply select_interactive_runs_none, Forall_forall.
    rewrite Hruns. intros r [Hkey Hr]%list_elem_of_filter Hp Hlive.
    apply Hkey, list_elem_of_fmap_2. by apply live_selected.
  - apply select_sessions_none, Forall_forall.
    rewrite Hsessions. intros x [Hkey Hx]%list_elem_of_filter Hp.
    apply Hkey. split; [done|]. apply list_elem_of_fmap.
    exists (p, InteractiveSession.pipeline_uuid x). split; [done|].
    apply select_sessions_spec. exists x. by rewrite Hp.
  - destruct (store (state (Project.delete SpecUnits.units p w))) as [r x j jr i ps].
    unfold SpecUnits.delete_images. cbn in *. f_equal.
    rewrite Himages, list_filter_filter. apply list_filter_iff. intros ?. tauto.
Qed.

(** Over the spec's adapters a deletion can be retried: deleting the
    project again answers 200 again and commits the very store the first
    deletion left. *)
Theorem second_deletion_changes_nothing (project_uuid : string) (w : World) :
  let w1 := state (Project.delete SpecUnits.units project_uuid w) in
  let o := Project.delete SpecUnits.units project_uuid w1 in
  result o = inl deleted ∧ store (state o) = store w1.
Proof.
  cbn zeta. destruct (spec_delete_nothing_left project_uuid w)
    as (Hruns & Hsessions & Himages).
  set (w1 := state (Project.delete SpecUnits.units project_uuid w)) in *.
  destruct (spec_delete project_uuid w1) as [-> ->]. split; [done|].
  destruct (_transaction_none SpecUnits.units Tpe project_uuid (opened w1)
              Hruns Hsessions) as (_ & -> & _).
  by rewrite images_turn.
Qed.

Section AdapterQueue.
Variable tpe : TwoPhaseExecutor.

Lemma session_delete_queue run s :
  collateral_queue (state (session_delete run s)) = collateral_queue s.
Proof. reflexivity. Qed.

Lemma abort_loop_queue (l : list InteractivePipelineRun.t) s :
  collateral_queue
    (state (for_ l (λ run,
              bind (transaction SpecUnits.units (new AbortPipelineRun tpe)
                                [InteractivePipelineRun.run_uuid run])
                   (λ _, session_delete run)) s))
  = collateral_queue s
    ++ ((λ run, mkCall AbortPipelineRun [InteractivePipelineRun.run_uuid run])
        <$> l).
Proof.
  revert s. induction l as [|run l IH]; intros s.
  - simpl. by rewrite app_nil_r.
  - cbn [for_]. rewrite (bind_run _ _ _ tt) by (by rewrite abort_turn).
    rewrite abort_turn. cbn [result state events].
    rewrite IH, session_delete_queue, fmap_cons. cbn [collateral_queue].
    by rewrite <-app_assoc.
Qed.

Lemma stop_loop_queue p (l : list (string * string)) s :
  collateral_queue
    (state (for_ l (λ pair,
              transaction SpecUnits.units (new StopInteractiveSession tpe)
                          [p; pair.2]) s))
  = collateral_queue s
    ++ ((λ pair, mkCall StopInteractiveSession [p; pair.2]) <$> l).
Proof.
  revert s. induction l as [|pair l IH]; intros s.
  - simpl. by rewrite app_nil_r.
  - cbn [for_]. rewrite (bind_run _ _ _ tt) by (by rewrite stop_turn).
    rewrite stop_turn. cbn [result state events].
    rewrite IH, fmap_cons. cbn [collateral_queue]. by rewrite <-app_assoc.
Qed.

(** The collateral queue the store-mutation phase leaves, over the spec's
    adapters: the aborts, the stops, the image unit. *)
Lemma spec_transaction_queue p s :
  collateral_queue (state (DeleteProject._transaction SpecUnits.units tpe p s))
  = collateral_queue s
    ++ ((λ run, mkCall AbortPipelineRun [InteractivePipelineRun.run_uuid run])
        <$> DeleteProject.select_interactive_runs p (session s))
    ++ ((λ pair, mkCall StopInteractiveSession [p; pair.2])
        <$> DeleteProject.select_sessions p (session s))
    ++ [mkCall DeleteProjectEnvironmentImages [p]].
Proof.
  destruct (abort_block tpe p s) as (R1 & _ & Hbeside).
  assert (collateral_queue
            (state (DeleteProject.abort_interactive_runs SpecUnits.units tpe p s))
          = collateral_queue s
            ++ ((λ run, mkCall AbortPipelineRun
                          [InteractivePipelineRun.run_uuid run])
                <$> DeleteProject.select_interactive_runs p (session s)))
    as Hq1.
  { unfold DeleteProject.abort_interactive_runs.
    rewrite (bind_run _ _ _ (DeleteProject.select_interactive_runs p (session s)))
      by done.
    cbn [gets result state events]. apply abort_loop_queue. }
  set (s1 := state (DeleteProject.abort_interactive_runs SpecUnits.units tpe p s))
    in *.
  destruct (stop_block tpe p s1) as (R2 & _ & _).
  assert (collateral_queue
            (state (DeleteProject.stop_interactive_sessions SpecUnits.units tpe p s1))
          = collateral_queue s1
            ++ ((λ pair, mkCall StopInteractiveSession [p; pair.2])
                <$> DeleteProject.select_sessions p (session s1)))
    as Hq2.
  { unfold DeleteProject.stop_interactive_sessions.
    rewrite (bind_run _ _ _ (DeleteProject.select_sessions p (session s1)))
      by done.
    cbn [gets result state events]. apply stop_loop_queue. }
  set (s2 := state (DeleteProject.stop_interactive_sessions SpecUnits.units tpe p s1))
    in *.
  unfold DeleteProject._transaction.
  rewrite (bind_run _ _ _ tt) by done. fold s1.
  rewrite (bind_run _ _ _ tt) by done. fold s2.
  rewrite (bind_run _ _ _ tt) by (by rewrite delete_jobs_noop).
  rewrite delete_jobs_noop, images_turn. cbn [result state events collateral_queue].
  rewrite Hq2, Hq1. unfold DeleteProject.select_sessions, beside_runs in *.
  injection Hbeside as -> _ _ _. by rewrite <-!app_assoc.
Qed.

End AdapterQueue.

(** The collateral phase of a queue entry adds the calls it issues, and
    draining a queue adds those of its entries, front to back. *)
Lemma run_collateral_issued c b :
  state (run_collateral SpecUnits.units c b) = b ++ issued c.
Proof.
  destruct c as [[[]|] [|a1 [|a2 [|a3 a]]]]; cbn; by rewrite ?app_nil_r.
Qed.

Lemma drain_issued q b :
  state (drain SpecUnits.units q b) = b ++ flat_map issued q.
Proof.
  revert b. induction q as [|c q IH]; intros b.
  - simpl. by rewrite app_nil_r.
  - rewrite drain_cons. cbn [state flat_map].
    by rewrite IH, run_collateral_issued, <-app_assoc.
Qed.

Lemma flat_map_fmap_singleton {A B C} (h : B → list C) (f : A → B) (g : A → C)
    (l : list A) :
  (∀ x, h (f x) = [g x]) → flat_map h (f <$> l) = g <$> l.
Proof.
  intros Hh. induction l as [|x l IH]; [done|].
  rewrite !fmap_cons. cbn [flat_map]. by rewrite Hh, IH.
Qed.

(** Over the spec's adapters, what a deletion adds to the infrastructure's
    calls, in order: an abort for each selected run, a stop for each session
    pair, then one image deletion for the project; and no job is
    cancelled. *)
Theorem calls_issued_by_deletion (project_uuid : string) (w : World) :
  backend (state (Project.delete SpecUnits.units project_uuid w))
  = backend w
    ++ ((λ run, infra_abort (InteractivePipelineRun.run_uuid run))
        <$> DeleteProject.select_interactive_runs project_uuid (store w))
    ++ ((λ pair, infra_stop project_uuid pair.2)
        <$> DeleteProject.select_sessions project_uuid (store w))
    ++ [infra_delete_images project_uuid].
Proof.
  destruct (spec_transaction Tpe project_uuid (opened w)) as (R & _).
  assert (result (store_phase SpecUnits.units project_uuid w) = inl tt) as Hphase.
  { unfold store_phase, DeleteProject.transaction. by rewrite two_phase_run. }
  rewrite delete_commit by done. cbn [state backend].
  rewrite drain_issued. f_equal.
  unfold store_phase, DeleteProject.transaction.
  rewrite two_phase_run by done. cbn [collateral_queue].
  rewrite spec_transaction_queue.
  cbn [opened collateral_queue session app state].
  rewrite !flat_map_app.
  rewrite (flat_map_fmap_singleton _ _
             (λ run, infra_abort (InteractivePipelineRun.run_uuid run))) by done.
  rewrite (flat_map_fmap_singleton _ _
             (λ pair, infra_stop project_uuid pair.2)) by done.
  cbn. by rewrite app_nil_r.
Qed.

(** ** The order of the cascade, whatever its outcome *)

Section OrderAnyOutcome.
Variable U : Imports.
Variable tpe : TwoPhaseExecutor.

Lemma emits_stop_interactive_sessions p :
  emits (λ e, stop_event e = true)
        (DeleteProject.stop_interactive_sessions U tpe p).
Proof.
  unfold DeleteProject.stop_interactive_sessions.
  apply emits_bind; [apply emits_gets|intros sessions].
  apply emits_for. intros pair. by apply emits_transaction.
Qed.

(** How far a store-mutation phase got: it stopped in the run loop, or in
    the session loop, or it reached the image unit. *)
Lemma _transaction_cases p s :
  let o := DeleteProject._transaction U tpe p s in
  let runs := DeleteProject.abort_interactive_runs U tpe p s in
  let stops := DeleteProject.stop_interactive_sessions U tpe p (state runs) in
  (events o = events runs ∧ Forall (λ e, run_event e = true) (events o))
  ∨ (events o
     = flat_map abort_then_delete
                (DeleteProject.select_interactive_runs p (session s))
       ++ events stops
     ∧ Forall (λ e, stop_event e = true) (events stops))
  ∨ events o
    = flat_map abort_then_delete
               (DeleteProject.select_interactive_runs p (session s))
      ++ (stop_of p <$> DeleteProject.select_sessions p (session (state runs)))
      ++ [delete_images_of p].
Proof.
  cbn zeta. unfold DeleteProject._transaction.
  destruct (result (DeleteProject.abort_interactive_runs U tpe p s))
    as [[]|e] eqn:Hruns.
  - rewrite (bind_run _ _ _ tt) by done. cbn [events].
    rewrite abort_interactive_runs_events by done.
    set (s1 := state (DeleteProject.abort_interactive_runs U tpe p s)).
    destruct (result (DeleteProject.stop_interactive_sessions U tpe p s1))
      as [[]|e] eqn:Hstops.
    + right. right. rewrite (bind_run _ _ _ tt) by done. cbn [events state].
      rewrite stop_interactive_sessions_events by done.
      rewrite (bind_run _ _ _ tt) by (by rewrite delete_jobs_noop).
      rewrite delete_jobs_noop. cbn [events state app].
      by rewrite transaction_events_any.
    + right. left. rewrite (bind_raise _ _ _ e) by done. cbn [events].
      split; [done|]. apply emits_stop_interactive_sessions.
  - left. rewrite (bind_raise _ _ _ e) by done. cbn [events].
    split; [done|]. by apply emits_abort_interactive_runs.
Qed.

(** Whatever the outcome of the store-mutation phase, the cascade keeps
    its order.  If a Stop-Session unit was entered, every selected run had
    been aborted and deleted before; and if the Delete-Environment-Images
    unit was entered, be it to raise, all that came before it is the full
    run loop followed by the full session loop. *)
Theorem cascade_order_any_outcome (project_uuid : string) (s : Scope) :
  let o := DeleteProject._transaction U tpe project_uuid s in
  let db := session (state (DeleteProject.abort_interactive_runs
                              U tpe project_uuid s)) in
  (∀ e, e ∈ events o → stop_event e = true →
        filter (λ e, run_event e = true) (events o)
        = flat_map abort_then_delete
            (DeleteProject.select_interactive_runs project_uuid (session s)))
  ∧ (delete_images_of project_uuid ∈ events o →
     events o
     = flat_map abort_then_delete
         (DeleteProject.select_interactive_runs project_uuid (session s))
       ++ (stop_of project_uuid
           <$> DeleteProject.select_sessions project_uuid db)
       ++ [delete_images_of project_uuid]).
Proof.
  cbn zeta.
  assert (∀ l, Forall (λ e, run_event e = true) l →
               ∀ e, e ∈ l → stop_event e = false
                            ∧ e ≠ delete_images_of project_uuid) as Hrun.
  { intros l Hl e He. apply (proj1 (Forall_forall _ _) Hl) in He.
    split; [|by intros ->]. by destruct e as [[[[]|] ?]| | | | |]. }
  assert (∀ l, Forall (λ e, stop_event e = true) l →
               ∀ e, e ∈ l → run_event e = false
                            ∧ e ≠ delete_images_of project_uuid) as Hstop.
  { intros l Hl e He. apply (proj1 (Forall_forall _ _) Hl) in He.
    split; [|by intros ->]. by destruct e as [[[[]|] ?]| | | | |]. }
  destruct (_transaction_cases project_uuid s)
    as [[Hev Hall]|[[Hev Hall]|Hev]].
  - split.
    + intros e He Hse. destruct (Hrun _ Hall e He) as [Hne _]. congruence.
    + intros Hin. by destruct (Hrun _ Hall _ Hin) as [_ []].
  - split.
    + intros _ _ _. rewrite Hev, filter_app, filter_all, filter_none.
      * by rewrite app_nil_r.
      * apply Forall_forall. intros e He.
        destruct (Hstop _ Hall e He) as [-> _]. done.
      * eapply Forall_impl; [apply run_events_of_runs|]. by intros e (-> & _).
    + rewrite Hev. intros [Hin|Hin]%elem_of_app.
      * pose proof (run_events_of_runs
                      (DeleteProject.select_interactive_runs project_uuid
                         (session s))) as Hruns.
        apply (proj1 (Forall_forall _ _) Hruns) in Hin as (Hin & _). done.
      * by destruct (Hstop _ Hall _ Hin) as [_ []].
  - split; [|done].
    intros _ _ _. rewrite Hev, !filter_app, filter_all, !filter_none.
    + by rewrite !app_nil_r.
    + by repeat constructor.
    + eapply Forall_impl; [apply stop_events_of_pairs|]. by intros e (-> & _).
    + eapply Forall_impl; [apply run_events_of_runs|]. by intros e (-> & _).
Qed.

End OrderAnyOutcome.

Lemma cascade_order_any_outcome_witness :
  delete_images_of "P1"
  ∈ events (DeleteProject._transaction failing_images Tpe "P1" (opened P1_world))
  ∧ result (DeleteProject._transaction failing_images Tpe "P1" (opened P1_world))
    = inr (Exception "IntegrityError")
  ∧ events (DeleteProject._transaction failing_images Tpe "P1" (opened P1_world))
    = [ EvTransaction (mkCall AbortPipelineRun ["run-1"]);
        EvDelete (InteractiveRunRow "run-1");
        EvTransaction (mkCall AbortPipelineRun ["run-2"]);
        EvDelete (InteractiveRunRow "run-2");
        EvTransaction (mkCall StopInteractiveSession ["P1"; "pipe-a"]);
        EvTransaction (mkCall DeleteProjectEnvironmentImages ["P1"]) ].
Proof.
  assert (delete_images_of "P1"
          ∈ events (DeleteProject._transaction failing_images Tpe "P1"
                      (opened P1_world))) as Hin
    by by_computation.
  split; [exact Hin|]. split; [reflexivity|].
  rewrite (proj2 (cascade_order_any_outcome failing_images Tpe "P1"
                    (opened P1_world)) Hin).
  reflexivity.
Defined.

Lemma cascade_stays_in_project_witness :
  InteractivePipelineRun.mk "run-1" "P1" "pipe-a" "STARTED"
  ∈ DeleteProject.select_interactive_runs "P1" (session (opened P1_world))
  ∧ InteractivePipelineRun.mk "run-1" "P1" "pipe-a" "STARTED"
    ∈ interactive_runs (session (opened P1_world))
  ∧ live (InteractivePipelineRun.mk "run-1" "P1" "pipe-a" "STARTED").
Proof.
  assert (InteractivePipelineRun.mk "run-1" "P1" "pipe-a" "STARTED"
          ∈ DeleteProject.select_interactive_runs "P1"
              (session (opened P1_world))) as Hselected
    by by_computation.
  split; [exact Hselected|].
  destruct (proj2 (cascade_stays_in_project SpecUnits.units Tpe "P1"
                     (opened P1_world)) _ Hselected) as (Hin & _ & Hlive).
  split; [exact Hin|exact Hlive].
Defined.

Lemma runs_handled_in_order_until_failure_witness :
  DeleteProject.select_interactive_runs "P1" (session (opened P1_world))
  = [InteractivePipelineRun.mk "run-1" "P1" "pipe-a" "STARTED"]
    ++ InteractivePipelineRun.mk "run-2" "P1" "pipe-b" "STARTED" :: []
  ∧ result (abort_each failing_abort Tpe
              [InteractivePipelineRun.mk "run-1" "P1" "pipe-a" "STARTED"]
              (opened P1_world)) = inl tt
  ∧ result (DeleteProject._transaction failing_abort Tpe "P1" (opened P1_world))
    = inr (Exception "StaleDataError")
  ∧ events (DeleteProject._transaction failing_abort Tpe "P1" (opened P1_world))
    = [ EvTransaction (mkCall AbortPipelineRun ["run-1"]);
        EvDelete (InteractiveRunRow "run-1");
        EvTransaction (mkCall AbortPipelineRun ["run-2"]) ].
Proof.
  split; [reflexivity|]. split; [reflexivity|].
  destruct (proj2 (runs_handled_in_order_until_failure failing_abort Tpe "P1"
                     (opened P1_world))
              [InteractivePipelineRun.mk "run-1" "P1" "pipe-a" "STARTED"]
              (InteractivePipelineRun.mk "run-2" "P1" "pipe-b" "STARTED")
              [] (Exception "StaleDataError") eq_refl eq_refl eq_refl)
    as (Hresult & Hevents & _).
  split; [exact Hresult|exact Hevents].
Defined.

Lemma job_loop_has_no_effect_witness :
  DeleteProject.select_jobs "P1" (store P1_world) = ["job-1"]
  ∧ DeleteProject.delete_jobs SpecUnits.units Tpe "P1" (opened P1_world)
    = mkOutcome (inl tt) (opened P1_world) [].
Proof.
  split; [reflexivity|].
  exact (proj1 (job_loop_has_no_effect SpecUnits.units Tpe "P1"
                  (opened P1_world))).
Defined.
